(** * Production breakdown tool: the ingestion pipeline of [server.js]

    A shallow embedding of the document-ingestion and summarisation
    pipeline of [src/server.js] (chunker, text extraction, page sampling,
    content assembly, multi-pass summarisation, and the generate and revise
    request handlers), followed by the properties proved about it. *)

From Stdlib Require Import ZArith QArith Lia Ascii String DecimalString.
From stdpp Require Import base numbers list strings gmap sets.

Local Open Scope Z_scope.

(** ** JavaScript strings

    A JavaScript string is a sequence of UTF-16 code units; [length],
    [slice], [startsWith] and the default [sort] order all work on code
    units. *)

Abbreviation jsstring := (list N).

Fixpoint u (s : string) : jsstring :=
  match s with
  | EmptyString => []
  | String a rest => N_of_ascii a :: u rest
  end.

Module JsString.

Definition starts_with_unit (c : N) (s : jsstring) : bool :=
  match s with
  | d :: _ => (d =? c)%N
  | [] => false
  end.

(** [String.prototype.replace(/\r\n/g, "\n")]: a left-to-right scan,
    every CR immediately followed by LF is dropped. *)
Fixpoint replace_crlf (s : jsstring) : jsstring :=
  match s with
  | [] => []
  | c :: rest =>
      if (c =? 13)%N && starts_with_unit 10 rest then replace_crlf rest
      else c :: replace_crlf rest
  end.

(** WhiteSpace and LineTerminator code units of ECMAScript, the ones
    [trim] strips. *)
Definition is_space (c : N) : bool :=
  ((9 <=? c) && (c <=? 13) || (c =? 32) || (c =? 160) || (c =? 5760)
   || (8192 <=? c) && (c <=? 8202) || (c =? 8232) || (c =? 8233)
   || (c =? 8239) || (c =? 8287) || (c =? 12288) || (c =? 65279))%N.

Fixpoint trim_start (s : jsstring) : jsstring :=
  match s with
  | [] => []
  | c :: rest => if is_space c then trim_start rest else s
  end.

Definition trim (s : jsstring) : jsstring :=
  reverse (trim_start (reverse (trim_start s))).

(** Truthiness of a string: only the empty string is falsy. *)
Definition truthy (s : jsstring) : bool :=
  match s with [] => false | _ => true end.

(** Relative index resolution of [slice]: a negative index counts from
    the end, and everything is clamped to [0, len]. *)
Definition rel_index (len i : Z) : Z :=
  if i <? 0 then Z.max (len + i) 0 else Z.min i len.

(** [slice] of strings and of arrays alike. *)
Definition slice {A} (s : list A) (b e : Z) : list A :=
  let len := Z.of_nat (length s) in
  let from := rel_index len b in
  let to := rel_index len e in
  take (Z.to_nat (to - from)) (drop (Z.to_nat from) s).

Fixpoint startsWith (s p : jsstring) : bool :=
  match p, s with
  | [], _ => true
  | _ :: _, [] => false
  | a :: p', b :: s' => (a =? b)%N && startsWith s' p'
  end.

Definition endsWith (s p : jsstring) : bool :=
  startsWith (reverse s) (reverse p).

(** ASCII part of [toLowerCase].  Outside ASCII only U+212A lowers to
    an ASCII letter (k), which no key compared against below contains. *)
Definition lower_unit (c : N) : N :=
  if ((65 <=? c) && (c <=? 90))%N then (c + 32)%N else c.

Definition toLowerCase (s : jsstring) : jsstring := map lower_unit s.

(** Code-unit lexicographic order, the order of [Array.prototype.sort]
    without a comparator. *)
Fixpoint leb (a b : jsstring) : bool :=
  match a, b with
  | [], _ => true
  | _ :: _, [] => false
  | x :: a', y :: b' => (x <? y)%N || ((x =? y)%N && leb a' b')
  end.

Fixpoint insert_sorted (x : jsstring) (l : list jsstring) : list jsstring :=
  match l with
  | [] => [x]
  | y :: l' => if leb x y then x :: l else y :: insert_sorted x l'
  end.

Definition sort (l : list jsstring) : list jsstring :=
  foldr insert_sorted [] l.

(** [String(n)] for an integer. *)
Definition of_Z (n : Z) : jsstring :=
  u (NilZero.string_of_int (Z.to_int n)).

Fixpoint join (sep : jsstring) (l : list jsstring) : jsstring :=
  match l with
  | [] => []
  | [x] => x
  | x :: rest => x ++ sep ++ join sep rest
  end.

Fixpoint take_until (c : N) (s : jsstring) : jsstring :=
  match s with
  | [] => []
  | x :: rest => if (x =? c)%N then [] else x :: take_until c rest
  end.

Fixpoint drop_all (c : N) (s : jsstring) : jsstring :=
  match s with
  | [] => []
  | x :: rest => if (x =? c)%N then drop_all c rest else s
  end.

End JsString.

(** ** The [path] module (POSIX flavour) *)

Module Path.

Definition slash : N := 47.
Definition dot : N := 46.

(** [path.basename]: the last component, trailing slashes ignored. *)
Definition basename (p : jsstring) : jsstring :=
  reverse (JsString.take_until slash (JsString.drop_all slash (reverse p))).

(** [path.extname]: from the last dot of the last component to its end;
    empty when there is no dot, when the only dot opens the component,
    and for the component [..]. *)
Definition extname (p : jsstring) : jsstring :=
  let comp := basename p in
  let after := JsString.take_until dot (reverse comp) in
  if (length after =? length comp)%nat then []
  else if (S (length after) =? length comp)%nat then []
  else if bool_decide (comp = [dot; dot]) then []
  else dot :: reverse after.

(** [path.join] of a directory and a plain name (nothing to normalise). *)
Definition join (dir name : jsstring) : jsstring :=
  dir ++ [slash] ++ name.

End Path.

(** ** Configuration constants *)

Definition PDF_TEXT_CHUNK_CHARS : Z := 12000.
Definition PDF_TEXT_CHUNK_OVERLAP : Z := 600.
Definition MULTIPASS_THRESHOLD_CHARS : Z := 40000.
Definition MAX_FILES : Z := 10.
Definition VISUAL_FALLBACK_MIN_TEXT_CHARS : Z := 1500.
Definition VISUAL_FALLBACK_MAX_CHARS_PER_PAGE : Z := 120.
Definition VISUAL_RENDER_MAX_PAGES : Z := 6.
Definition VISUAL_RENDER_DPI : Z := 150.
Definition VISUAL_RENDER_JPEG_QUALITY : Z := 70.
Definition MAX_TOKENS : Z := 8000.

(** ** Chunker *)

(** The [while] loop of [chunkText].  [fuel] bounds the number of
    iterations; [None] means the bound was reached with the loop still
    running.  With one unit of fuel per character and one more, that is
    the case only for a loop that never ends (see [chunk_loop_returns] and
    [chunk_loop_never_returns]). *)
Fixpoint chunk_loop (fuel : nat) (clean : jsstring) (chunkSize overlap : Z)
    (start : Z) (chunks : list jsstring) : option (list jsstring) :=
  match fuel with
  | O => None
  | S fuel' =>
      let len := Z.of_nat (length clean) in
      if start <? len then
        let end_ := Z.min (start + chunkSize) len in
        let chunks' := chunks ++ [JsString.slice clean start end_] in
        if end_ >=? len then Some chunks'
        else chunk_loop fuel' clean chunkSize overlap
               (Z.max 0 (end_ - overlap)) chunks'
      else Some chunks
  end.

(** [text] is [None] for a [null] or [undefined] argument. *)
Definition chunkText (text : option jsstring) (chunkSize overlap : Z)
    : option (list jsstring) :=
  let clean := JsString.replace_crlf (default [] text) in
  if negb (JsString.truthy (JsString.trim clean)) then Some []
  else chunk_loop (S (length clean)) clean chunkSize overlap 0 [].

(** Chunks glued back together, the first [overlap] characters of every
    chunk but the first removed. *)
Definition rebuild (overlap : Z) (chunks : list jsstring) : jsstring :=
  match chunks with
  | [] => []
  | c :: cs => c ++ concat (map (drop (Z.to_nat overlap)) cs)
  end.

(** ** Data model *)

Abbreviation bytes := (list Byte.byte).

Inductive ContentBlock :=
| TextBlock (text : jsstring)
| ImageBlock (media_type data : jsstring).

Definition is_text (b : ContentBlock) : bool :=
  match b with TextBlock _ => true | ImageBlock _ _ => false end.

Definition is_image (b : ContentBlock) : bool :=
  match b with ImageBlock _ _ => true | TextBlock _ => false end.

(** One message of a conversation: [{ role, content }]. *)
Record Turn := { role : jsstring; content : list ContentBlock }.

(** A file as multer hands it to the handler. *)
Record UploadedFile := {
  originalname : jsstring;
  filename : jsstring;
  path : jsstring;
  size : Z
}.

Record PdfDiagnostic := {
  d_filename : jsstring;
  d_numpages : option Z;
  d_textLength : Z;
  d_chunkCount : Z
}.

(** What [createContentWithFiles] returns. *)
Record Assembly := {
  a_content : list ContentBlock;
  a_pdfDiagnostics : list PdfDiagnostic;
  a_totalExtractedPdfChars : Z
}.

(** The argument of [anthropic.messages.create]. *)
Record ApiRequest := {
  model : jsstring;
  max_tokens : Z;
  system : jsstring;
  messages : list Turn
}.

(** The JSON body of a response. *)
Inductive Body :=
| ErrorBody (error : jsstring)
| BreakdownBody (breakdown : jsstring) (conversationHistory : list Turn).

Record Response := { status : Z; body : Body }.

(** [req.body] of a revise call; [None] is an absent or [null] field. *)
Record ReviseBody := {
  revisionRequest : option jsstring;
  currentBreakdown : option jsstring;
  conversationHistory : option (list Turn)
}.

Inductive JsError :=
| FsError (p : jsstring)
| ExecError
| PdfParseError
| UnsupportedModuleShape (keys : list jsstring)
| NoJpegOutput (prefix : jsstring)
| ApiError.

(** ** The [pdf-parse] module shapes *)

(** What [parser.getInfo] reports about pages. *)
Inductive PagesInfo :=
| PagesNumber (n : Z)
| PagesArray (entries : nat)
| PagesOther.

Record PdfInfo := { total : option Z; pages : PagesInfo }.

(** The result of a legacy parse function: [parsed.text] and
    [parsed.numpages], each possibly missing. *)
Record RawParsed := { raw_text : option jsstring; raw_numpages : option Z }.

(** The shapes [getPdfParseAdapter] tells apart, in the order it tests
    them.  A function is [None] where the call throws. *)
Inductive PdfParseModule :=
| DefaultFunction (parse : bytes -> option RawParsed)
| ModuleFunction (parse : bytes -> option RawParsed)
| PDFParseClass (getText : bytes -> option (option jsstring))
                (getInfo : bytes -> option PdfInfo)
| UnknownShape (keys : list jsstring).

Record Parsed := { text : jsstring; numpages : option Z }.

(** ** The world a request runs in *)

(** Mutable state: the files on disk, the requests sent to the
    summarisation service so far, and a step counter that indexes the
    answers of the environment. *)
Record World := {
  disk : gset jsstring;
  api_log : list ApiRequest;
  clock : nat
}.

(** The environment: everything outside the program, as functions of the
    step at which it is asked. *)
Record Env := {
  (** [process.env.ANTHROPIC_API_KEY] and [process.env.ANTHROPIC_MODEL] *)
  ANTHROPIC_API_KEY : option jsstring;
  ANTHROPIC_MODEL : option jsstring;
  (** [__dirname] *)
  dirname : jsstring;
  pdf_parse : PdfParseModule;
  (** contents [fs.readFile] delivers; [None] is a failed read *)
  file_contents : nat -> jsstring -> option bytes;
  (** [Buffer.toString("base64")] *)
  base64 : bytes -> jsstring;
  (** whether [pdftoppm -h] exits normally *)
  pdftoppm_help : nat -> bool;
  (** a [pdftoppm] run: the files it leaves behind, and whether it exits
      normally *)
  pdftoppm : nat -> list jsstring -> list jsstring * bool;
  (** [Date.now()] and [Math.random().toString(16).slice(2)] *)
  date_now : nat -> Z;
  random_hex : nat -> jsstring;
  (** the answer of [anthropic.messages.create]: the [content] array, or
      [None] for a rejected call *)
  anthropic : nat -> ApiRequest -> option (list ContentBlock)
}.

(** ** Effects

    A computation runs in a world and ends in one of three ways: with a
    value, with a thrown error (a rejected promise), or not at all.  The
    world reached is kept in every case: what was written before an error
    stays written. *)

Inductive outcome (A : Type) :=
| Ret (a : A)
| Throw (e : JsError)
| Hang.

Arguments Ret {A} a.
Arguments Throw {A} e.
Arguments Hang {A}.

Definition M (A : Type) : Type := World -> outcome A * World.

Definition ret {A} (a : A) : M A := fun w => (Ret a, w).

Definition throw {A} (e : JsError) : M A := fun w => (Throw e, w).

Definition bind {A B} (m : M A) (k : A -> M B) : M B :=
  fun w =>
    match m w with
    | (Ret a, w') => k a w'
    | (Throw e, w') => (Throw e, w')
    | (Hang, w') => (Hang, w')
    end.

Declare Scope js_scope.
Delimit Scope js_scope with js.

Notation "'let*' x ':=' m 'in' k" := (bind m (fun x => k))
  (at level 10, x pattern, m at level 100, k at level 200) : js_scope.

Local Open Scope js_scope.

(** [try { m } catch (e) { h e }] *)
Definition try_catch {A} (m : M A) (h : JsError -> M A) : M A :=
  fun w =>
    match m w with
    | (Throw e, w') => h e w'
    | r => r
    end.

(** [try { m } finally { cleanup }]: the cleanup runs after a value and
    after an error alike, and the outcome of [m] stands unless the cleanup
    itself throws. *)
Definition finally {A} (m : M A) (cleanup : M unit) : M A :=
  fun w =>
    match m w with
    | (Hang, w') => (Hang, w')
    | (r, w') =>
        match cleanup w' with
        | (Ret _, w'') => (r, w'')
        | (Throw e, w'') => (Throw e, w'')
        | (Hang, w'') => (Hang, w'')
        end
    end.

(** A loop whose iteration bound ran out stands for one that never ends. *)
Definition terminating {A} (r : option A) : M A :=
  fun w => match r with Some a => (Ret a, w) | None => (Hang, w) end.

(** [for (const x of l) acc = body acc x] *)
Fixpoint for_of {A S} (l : list A) (body : S -> A -> M S) (acc : S) : M S :=
  match l with
  | [] => ret acc
  | x :: rest => let* acc' := body acc x in for_of rest body acc'
  end.

(** ** Primitives of the environment *)

Definition set_disk (d : gset jsstring) (w : World) : World :=
  {| disk := d; api_log := api_log w; clock := clock w |}.

(** The step counter, advanced at every question to the environment. *)
Definition tick : M nat :=
  fun w => (Ret (clock w),
            {| disk := disk w; api_log := api_log w; clock := S (clock w) |}).

Section Program.

Variable E : Env.

(** [fs.readFile]: fails on a missing file, and where the environment
    says so. *)
Definition readFile (p : jsstring) : M bytes :=
  let* t := tick in
  fun w =>
    if bool_decide (p ∈ disk w) then
      match file_contents E t p with
      | Some b => (Ret b, w)
      | None => (Throw (FsError p), w)
      end
    else (Throw (FsError p), w).

(** [fs.unlink]: removes the name, fails if it is not there. *)
Definition unlink (p : jsstring) : M unit :=
  fun w =>
    if bool_decide (p ∈ disk w) then (Ret tt, set_disk (disk w ∖ {[p]}) w)
    else (Throw (FsError p), w).

(** The entry name of [p] in directory [dir], if [p] lies directly in it. *)
Definition entry_of (dir p : jsstring) : option jsstring :=
  let prefix := dir ++ [Path.slash] in
  if JsString.startsWith p prefix then
    let name := drop (length prefix) p in
    if bool_decide (Path.slash ∈ name) then None else Some name
  else None.

(** [fs.readdir] *)
Definition readdir (dir : jsstring) : M (list jsstring) :=
  fun w => (Ret (omap (entry_of dir) (elements (disk w))), w).

(** [execFileAsync("pdftoppm", args)] *)
Definition execFile_pdftoppm (args : list jsstring) : M unit :=
  let* t := tick in
  fun w =>
    let '(created, ok) := pdftoppm E t args in
    let w' := set_disk (disk w ∪ list_to_set created) w in
    if ok then (Ret tt, w') else (Throw ExecError, w').

(** [anthropic.messages.create(request)] *)
Definition messages_create (request : ApiRequest) : M (list ContentBlock) :=
  let* t := tick in
  fun w =>
    let w' := {| disk := disk w; api_log := api_log w ++ [request];
                 clock := clock w |} in
    match anthropic E t request with
    | Some c => (Ret c, w')
    | None => (Throw ApiError, w')
    end.

(** [msg.content?.[0]?.text || ""] *)
Definition first_text (content : list ContentBlock) : jsstring :=
  match content with
  | TextBlock t :: _ => t
  | _ => []
  end.

(** *** Text extraction *)

Definition truthy_Z (n : Z) : bool := negb (n =? 0).

(** [(typeof info?.total === "number" && info.total) ||
     (Array.isArray(info?.pages) && info.pages.length) ||
     (typeof info?.pages === "number" && info.pages) || null] *)
Definition numpages_of_info (info : PdfInfo) : option Z :=
  match total info with
  | Some t => if truthy_Z t then Some t else None
  | None => None
  end
  ∪
  match pages info with
  | PagesArray n => if truthy_Z (Z.of_nat n) then Some (Z.of_nat n) else None
  | PagesNumber n => if truthy_Z n then Some n else None
  | PagesOther => None
  end.

Definition legacy_adapter (parse : bytes -> option RawParsed)
    (buffer : bytes) : M Parsed :=
  match parse buffer with
  | None => throw PdfParseError
  | Some parsed =>
      ret {| text := JsString.trim (default [] (raw_text parsed));
             numpages := raw_numpages parsed |}
  end.

(** [getPdfParseAdapter].  The adapter is cached in a module variable;
    the module shape never changes, so the cache is not modelled. *)
Definition getPdfParseAdapter : M (bytes -> M Parsed) :=
  match pdf_parse E with
  | DefaultFunction parse => ret (legacy_adapter parse)
  | ModuleFunction parse => ret (legacy_adapter parse)
  | PDFParseClass getText getInfo =>
      ret (fun buffer =>
             match getText buffer with
             | None => throw PdfParseError
             | Some textRes =>
                 let text := JsString.trim (default [] textRes) in
                 match getInfo buffer with
                 | None => throw PdfParseError
                 | Some info =>
                     ret {| text := text; numpages := numpages_of_info info |}
                 end
             end)
  | UnknownShape keys => throw (UnsupportedModuleShape keys)
  end.

Definition extractPdfText (filePath : jsstring) : M Parsed :=
  let* buffer := readFile filePath in
  let* parse := getPdfParseAdapter in
  parse buffer.

Definition fileToBase64 (filepath : jsstring) : M jsstring :=
  let* buffer := readFile filepath in
  ret (base64 E buffer).

(** *** Media types *)

Definition media_types : list (jsstring * jsstring) :=
  [ (u ".pdf", u "application/pdf");
    (u ".png", u "image/png");
    (u ".jpg", u "image/jpeg");
    (u ".jpeg", u "image/jpeg");
    (u ".gif", u "image/gif");
    (u ".txt", u "text/plain");
    (u ".doc", u "application/msword");
    (u ".docx",
     u "application/vnd.openxmlformats-officedocument.wordprocessingml.document") ].

Fixpoint assoc (k : jsstring) (l : list (jsstring * jsstring))
    : option jsstring :=
  match l with
  | [] => None
  | (k', v) :: rest => if bool_decide (k = k') then Some v else assoc k rest
  end.

Definition getMediaType (filename : jsstring) : jsstring :=
  let ext := JsString.toLowerCase (Path.extname filename) in
  default (u "application/octet-stream") (assoc ext media_types).

(** *** Page rendering *)

(** [.replace(/[^a-zA-Z0-9-_]/g, "_")] on one code unit: letters,
    digits, hyphen and underscore are kept. *)
Definition safe_unit (c : N) : N :=
  if ((97 <=? c) && (c <=? 122) || (65 <=? c) && (c <=? 90)
      || (48 <=? c) && (c <=? 57) || (c =? 45) || (c =? 95))%N
  then c else 95%N.

Definition is_jpeg_name (baseName name : jsstring) : bool :=
  let lower := JsString.toLowerCase name in
  JsString.startsWith name baseName
  && (JsString.endsWith lower (u ".jpg") || JsString.endsWith lower (u ".jpeg")).

Definition renderPdfPageToJpeg (pdfPath : jsstring) (pageNumber : Z)
    (outputDir : jsstring) : M jsstring :=
  let* t := tick in
  let nonce := JsString.of_Z (date_now E t) ++ u "-" ++ random_hex E t in
  let safeBase := map safe_unit (Path.basename pdfPath) in
  let outputPrefix :=
    Path.join outputDir
      (safeBase ++ u "-" ++ nonce ++ u "-page-" ++ JsString.of_Z pageNumber) in
  let* _ := execFile_pdftoppm
    [ u "-f"; JsString.of_Z pageNumber; u "-l"; JsString.of_Z pageNumber;
      u "-jpeg"; u "-jpegopt";
      u "quality=" ++ JsString.of_Z VISUAL_RENDER_JPEG_QUALITY;
      u "-r"; JsString.of_Z VISUAL_RENDER_DPI; pdfPath; outputPrefix ] in
  let* files := readdir outputDir in
  let baseName := Path.basename outputPrefix in
  let candidates := JsString.sort (filter (fun name => is_jpeg_name baseName name) files) in
  match candidates with
  | [] => throw (NoJpegOutput outputPrefix)
  | first :: _ => ret (Path.join outputDir first)
  end.

Definition isPdftoppmAvailable : M bool :=
  let* t := tick in
  ret (pdftoppm_help E t).

(** *** Content assembly *)

Definition nl : jsstring := [10%N].

(** [file.originalname || file.filename] *)
Definition display_name (file : UploadedFile) : jsstring :=
  if JsString.truthy (originalname file) then originalname file
  else filename file.

Definition Qltb (x y : Q) : bool := negb (Qle_bool y x).

(** [pages > 0 ? textChars / pages : 0] *)
Definition charsPerPage (textChars pages : Z) : Q :=
  if pages >? 0 then (inject_Z textChars / inject_Z pages)%Q else 0%Q.

Definition shouldRenderVisual (textChars pages : Z) : bool :=
  (pages >? 0)
  && ((textChars <? VISUAL_FALLBACK_MIN_TEXT_CHARS)
      || Qltb (charsPerPage textChars pages)
              (inject_Z VISUAL_FALLBACK_MAX_CHARS_PER_PAGE)).

(** [for (let p = 1 + interval; p <= pages; p += interval)
       samplePages.push(p)] *)
Fixpoint sample_loop (fuel : nat) (p interval pages : Z)
    (samplePages : list Z) : option (list Z) :=
  match fuel with
  | O => None
  | S fuel' =>
      if p <=? pages
      then sample_loop fuel' (p + interval) interval pages (samplePages ++ [p])
      else Some samplePages
  end.

Definition sample_interval (pages : Z) : Z := Z.max 2 (pages / 5).

Definition samplePages (pages : Z) : option (list Z) :=
  let interval := sample_interval pages in
  sample_loop (S (Z.to_nat pages)) (1 + interval) interval pages [1].

(** [[...new Set(l)]]: first occurrences, in order. *)
Fixpoint set_order (seen l : list Z) : list Z :=
  match l with
  | [] => []
  | x :: rest =>
      if bool_decide (x ∈ seen) then set_order seen rest
      else x :: set_order (x :: seen) rest
  end.

Definition uniquePages (pages : Z) (samplePages : list Z) : list Z :=
  filter (fun p => (1 <=? p) && (p <=? pages)) (set_order [] samplePages).

Definition cappedPages (pages : Z) (samplePages : list Z) : list Z :=
  JsString.slice (uniquePages pages samplePages) 0 VISUAL_RENDER_MAX_PAGES.

Definition image_heavy_notice (name : jsstring) : ContentBlock :=
  TextBlock
    (u "===== PDF (IMAGE-HEAVY) DETECTED: " ++ name ++ u " =====" ++ nl ++
     u "This PDF appears to have little/no extractable text (possibly scanned or image-based)," ++ nl ++
     u "but server cannot render pages because 'pdftoppm' is not available." ++ nl ++
     u "Please treat any extracted text as incomplete." ++ nl ++
     u "===== END PDF NOTICE: " ++ name ++ u " =====" ++ nl).

Definition visual_header (name : jsstring) : ContentBlock :=
  TextBlock (u "===== VISUAL PAGES FROM PDF: " ++ name ++ u " (sampled) =====").

Definition visual_footer (name : jsstring) : ContentBlock :=
  TextBlock (u "===== END VISUAL PAGES FROM PDF: " ++ name ++ u " =====").

Definition no_text_block (name : jsstring) : ContentBlock :=
  TextBlock
    (u "===== PDF: " ++ name ++ u " =====" ++ nl ++
     u "[No extractable text found. This PDF may be image-only / scanned / mostly visual.]" ++ nl ++
     u "===== END PDF: " ++ name ++ u " =====" ++ nl).

(** The block of chunk [i] (from 0) out of [total]. *)
Definition chunk_block (name : jsstring) (i total : Z) (chunk : jsstring)
    : ContentBlock :=
  TextBlock
    (u "===== PDF: " ++ name ++ u " | CHUNK " ++ JsString.of_Z (i + 1) ++
     u "/" ++ JsString.of_Z total ++ u " =====" ++ nl ++
     chunk ++
     nl ++ u "===== END PDF: " ++ name ++ u " | CHUNK " ++
     JsString.of_Z (i + 1) ++ u "/" ++ JsString.of_Z total ++ u " =====" ++ nl).

(** One turn of the page loop: render, encode, push, delete; any error
    of the turn is logged and the turn is over. *)
Definition render_page (file : UploadedFile) (renderDir : jsstring)
    (content : list ContentBlock) (pageNum : Z) : M (list ContentBlock) :=
  try_catch
    (let* imagePath := renderPdfPageToJpeg (path file) pageNum renderDir in
     let* base64Data := fileToBase64 imagePath in
     let content' := content ++ [ImageBlock (u "image/jpeg") base64Data] in
     let* _ := try_catch (unlink imagePath) (fun _ => ret tt) in
     ret content')
    (fun err => ret content).

(** The blocks added for a PDF whose text looks too thin. *)
Definition visual_fallback (canRenderPdfPages : bool) (file : UploadedFile)
    (pages : Z) (content : list ContentBlock) : M (list ContentBlock) :=
  if negb canRenderPdfPages then
    ret (content ++ [image_heavy_notice (display_name file)])
  else
    let* sampled := terminating (samplePages pages) in
    let capped := cappedPages pages sampled in
    let renderDir := Path.join (dirname E) (u "uploads") in
    let content1 := content ++ [visual_header (display_name file)] in
    let* content2 := for_of capped (render_page file renderDir) content1 in
    ret (content2 ++ [visual_footer (display_name file)]).

Definition chunk_blocks (name : jsstring) (chunks : list jsstring)
    : list ContentBlock :=
  match chunks with
  | [] => [no_text_block name]
  | _ =>
      imap (fun i chunk =>
              chunk_block name (Z.of_nat i) (Z.of_nat (length chunks)) chunk)
           chunks
  end.

(** The PDF branch of the loop over the files. *)
Definition process_pdf (canRenderPdfPages : bool) (acc : Assembly)
    (file : UploadedFile) : M Assembly :=
  let* parsed := extractPdfText (path file) in
  let textChars := Z.of_nat (length (text parsed)) in
  let total := a_totalExtractedPdfChars acc + textChars in
  let* chunks :=
    terminating
      (chunkText (Some (text parsed)) PDF_TEXT_CHUNK_CHARS PDF_TEXT_CHUNK_OVERLAP) in
  let pages := default 0 (numpages parsed) in
  let* content1 :=
    if shouldRenderVisual textChars pages
    then visual_fallback canRenderPdfPages file pages (a_content acc)
    else ret (a_content acc) in
  let diag := {| d_filename := display_name file;
                 d_numpages := numpages parsed;
                 d_textLength := textChars;
                 d_chunkCount := Z.of_nat (length chunks) |} in
  ret {| a_content := content1 ++ chunk_blocks (display_name file) chunks;
         a_pdfDiagnostics := a_pdfDiagnostics acc ++ [diag];
         a_totalExtractedPdfChars := total |}.

(** One turn of the loop over the files. *)
Definition process_file (canRenderPdfPages : bool) (acc : Assembly)
    (file : UploadedFile) : M Assembly :=
  let mediaType := getMediaType (display_name file) in
  if JsString.startsWith mediaType (u "image/") then
    let* base64Data := fileToBase64 (path file) in
    ret {| a_content := a_content acc ++ [ImageBlock mediaType base64Data];
           a_pdfDiagnostics := a_pdfDiagnostics acc;
           a_totalExtractedPdfChars := a_totalExtractedPdfChars acc |}
  else if bool_decide (mediaType = u "application/pdf") then
    process_pdf canRenderPdfPages acc file
  else ret acc.

Definition createContentWithFiles (files : list UploadedFile)
    (message : option jsstring) : M Assembly :=
  let content :=
    match message with
    | Some m => if JsString.truthy m then [TextBlock m] else []
    | None => []
    end in
  let* canRenderPdfPages := isPdftoppmAvailable in
  for_of files (process_file canRenderPdfPages)
    {| a_content := content; a_pdfDiagnostics := [];
       a_totalExtractedPdfChars := 0 |}.

(** *** Prompts *)

(** [x || fallback] on an environment variable. *)
Definition env_or (x : option jsstring) (fallback : jsstring) : jsstring :=
  match x with
  | Some s => if JsString.truthy s then s else fallback
  | None => fallback
  end.

Definition MODEL : jsstring :=
  env_or (ANTHROPIC_MODEL E) (u "claude-sonnet-4-20250514").

Definition api_key_configured : bool :=
  JsString.truthy (default [] (ANTHROPIC_API_KEY E)).

Definition dq : jsstring := [34%N].

Definition SYSTEM_PROMPT : jsstring :=
  u "You are a professional production breakdown specialist. Your job is to analyze film/video production briefs, scripts, and related documents to create detailed production breakdowns." ++ nl ++
  nl ++
  u "CRITICAL RULES:" ++ nl ++
  u "1. ONLY state facts explicitly mentioned in the provided documents" ++ nl ++
  u "2. Clearly mark any assumptions as " ++ dq ++ u "RECOMMENDED" ++ dq ++ u " or " ++ dq ++ u "ASSUMED" ++ dq ++ nl ++
  u "3. NEVER mix up details from different projects" ++ nl ++
  u "4. Read scripts carefully for hidden requirements (stunts, special equipment, etc.)" ++ nl ++
  u "5. Format crew as " ++ dq ++ u "Department 1x" ++ dq ++ u " unless specific numbers are stated" ++ nl ++
  nl ++
  u "BREAKDOWN STRUCTURE:" ++ nl ++
  u "- SHOOT DAYS" ++ nl ++
  u "- CREW (Travel CONFIRMED, Travel RECOMMENDED, Technical Crew)" ++ nl ++
  u "- EQUIPMENT" ++ nl ++
  u "- LOCATIONS" ++ nl ++
  u "- ART/PROPS" ++ nl ++
  u "- TRANSPORT" ++ nl ++
  u "- TALENTS (extracted from script)" ++ nl ++
  u "- USAGE (if mentioned)" ++ nl ++
  u "- SPECIAL NOTES & QUESTIONS" ++ nl ++
  u "- MISSING/TBD INFORMATION" ++ nl ++
  nl ++
  u "Always separate CONFIRMED facts from RECOMMENDED assumptions.".

Definition NOTES_SYSTEM_PROMPT : jsstring :=
  u "You are extracting production-relevant facts from one chunk of source material." ++ nl ++
  u "STRICT RULES:" ++ nl ++
  u "- ONLY include facts explicitly stated." ++ nl ++
  u "- If uncertain, label as RECOMMENDED or QUESTION." ++ nl ++
  u "OUTPUT FORMAT:" ++ nl ++
  u "Return compact bullet notes under these headings:" ++ nl ++
  u "SHOOT DAYS | CREW | EQUIPMENT | LOCATIONS | ART/PROPS | TRANSPORT | TALENTS | USAGE | SPECIAL NOTES & QUESTIONS | MISSING/TBD" ++ nl.

(** The task prompt the generate handler puts in front of the files. *)
Definition GENERATE_MESSAGE : jsstring :=
  u "Please analyze these production brief documents and create a detailed production breakdown following the format and rules in your system prompt.".

Definition INSTRUCTION_PREFIX : jsstring :=
  u "Please analyze these production brief documents".

Definition FINAL_INSTRUCTION : jsstring :=
  u "You will now produce the final production breakdown. Use the notes below as the only factual source. " ++
  u "If images are attached, use them only to confirm visible details and call out any uncertainties as QUESTIONS.".

(** *** Multi-pass summarisation *)

Definition user_turn (content : list ContentBlock) : Turn :=
  {| role := u "user"; content := content |}.

Definition assistant_turn (text : jsstring) : Turn :=
  {| role := u "assistant"; content := [TextBlock text] |}.

Definition block_text (b : ContentBlock) : jsstring :=
  match b with TextBlock t => t | ImageBlock _ _ => [] end.

Definition isGenericInstruction (block : ContentBlock) : bool :=
  JsString.startsWith (block_text block) INSTRUCTION_PREFIX.

(** The request for the notes of text block [i] (from 0) out of [n]. *)
Definition notes_request (i n : nat) (block : ContentBlock) : ApiRequest :=
  {| model := MODEL;
     max_tokens := 2500;
     system := NOTES_SYSTEM_PROMPT;
     messages :=
       [ user_turn
           [ TextBlock
               (u "Extract production notes from this chunk (" ++
                JsString.of_Z (Z.of_nat i + 1) ++ u "/" ++
                JsString.of_Z (Z.of_nat n) ++ u ")." ++ nl ++ nl ++
                block_text block) ] ] |}.

(** One turn of the loop over the text blocks. *)
Definition notes_step (n : nat) (notes : list jsstring)
    (ib : nat * ContentBlock) : M (list jsstring) :=
  let '(i, block) := ib in
  if isGenericInstruction block then ret notes
  else
    let* msg := messages_create (notes_request i n block) in
    ret (notes ++ [first_text msg]).

Definition notes_separator : jsstring := nl ++ nl ++ u "---" ++ nl ++ nl.

Definition finalUserContent (imageBlocks : list ContentBlock)
    (notes : list jsstring) : list ContentBlock :=
  [TextBlock FINAL_INSTRUCTION] ++ imageBlocks ++
  [TextBlock
     (nl ++ nl ++ u "===== EXTRACTED NOTES (MULTI-PASS) =====" ++ nl ++
      JsString.join notes_separator notes ++
      nl ++ u "===== END EXTRACTED NOTES =====" ++ nl)].

Definition synthesis_request (content : list ContentBlock) : ApiRequest :=
  {| model := MODEL; max_tokens := MAX_TOKENS; system := SYSTEM_PROMPT;
     messages := [user_turn content] |}.

Definition runMultiPassBreakdown (originalContent : list ContentBlock)
    : M jsstring :=
  let imageBlocks := filter is_image originalContent in
  let textBlocks := filter is_text originalContent in
  let* notes :=
    for_of (imap pair textBlocks) (notes_step (length textBlocks)) [] in
  let* finalMsg :=
    messages_create (synthesis_request (finalUserContent imageBlocks notes)) in
  ret (first_text finalMsg).

(** The single direct synthesis call of the generate handler. *)
Definition runSinglePass (content : list ContentBlock) : M jsstring :=
  let* message := messages_create (synthesis_request content) in
  ret (first_text message).

(** *** The generate handler *)

Definition error_response (code : Z) (msg : jsstring) : Response :=
  {| status := code; body := ErrorBody msg |}.

Definition MISSING_KEY_MESSAGE : jsstring :=
  u "Server is missing ANTHROPIC_API_KEY environment variable. Set it and restart the server.".

(** Single pass or multi-pass, by the amount of extracted PDF text. *)
Definition synthesize (asm : Assembly) : M jsstring :=
  if a_totalExtractedPdfChars asm >? MULTIPASS_THRESHOLD_CHARS
  then runMultiPassBreakdown (a_content asm)
  else runSinglePass (a_content asm).

(** The body of the [try] block. *)
Definition generate_try (files : list UploadedFile) : M Response :=
  if (length files =? 0)%nat then
    ret (error_response 400 (u "No files uploaded"))
  else if negb api_key_configured then
    ret (error_response 500 MISSING_KEY_MESSAGE)
  else
    let* asm := createContentWithFiles files (Some GENERATE_MESSAGE) in
    let* breakdown := synthesize asm in
    let conversationHistory :=
      [user_turn (a_content asm); assistant_turn breakdown] in
    ret {| status := 200; body := BreakdownBody breakdown conversationHistory |}.

(** The [finally] block. *)
Definition cleanup (cleanupPaths : list jsstring) : M unit :=
  for_of cleanupPaths
    (fun _ p => try_catch (unlink p) (fun _ => ret tt)) tt.

(** [POST /api/generate-breakdown]; [req_files] is [req.files]. *)
Definition generate_breakdown (req_files : option (list UploadedFile))
    : M Response :=
  let files := default [] req_files in
  let cleanupPaths := map path files in
  finally
    (try_catch (generate_try files)
       (fun error => ret (error_response 500 (u "Failed to generate breakdown"))))
    (cleanup cleanupPaths).

(** *** The revise handler *)

Definition falsy (x : option jsstring) : bool :=
  negb (JsString.truthy (default [] x)).

Definition revision_turn (revisionRequest currentBreakdown : jsstring) : Turn :=
  user_turn
    [ TextBlock
        (u "Please revise the breakdown based on this feedback: " ++
         revisionRequest ++ nl ++ nl ++
         u "Current breakdown:" ++ nl ++ currentBreakdown) ].

Definition revise_try (b : ReviseBody) : M Response :=
  if falsy (revisionRequest b) || falsy (currentBreakdown b) then
    ret (error_response 400 (u "Missing required data"))
  else if negb api_key_configured then
    ret (error_response 500 MISSING_KEY_MESSAGE)
  else
    let messages :=
      default [] (conversationHistory b) ++
      [revision_turn (default [] (revisionRequest b))
                     (default [] (currentBreakdown b))] in
    let* message :=
      messages_create
        {| model := MODEL; max_tokens := MAX_TOKENS; system := SYSTEM_PROMPT;
           messages := messages |} in
    let revisedBreakdown := first_text message in
    let updatedHistory := messages ++ [assistant_turn revisedBreakdown] in
    ret {| status := 200; body := BreakdownBody revisedBreakdown updatedHistory |}.

(** [POST /api/revise-breakdown] *)
Definition revise_breakdown (b : ReviseBody) : M Response :=
  try_catch (revise_try b)
    (fun error => ret (error_response 500 (u "Failed to revise breakdown"))).

End Program.

(** ** Notions used in the statements *)

(** The invariant of the chunking loop: what has been pushed so far
    rebuilds to the text up to the end of the last window. *)
Definition chunk_inv (clean : jsstring) (O s : Z) (chunks : list jsstring)
    : Prop :=
  (chunks = [] /\ s = 0)
  \/ (chunks <> [] /\ rebuild O chunks = take (Z.to_nat (s + O)) clean
      /\ s + O < Z.of_nat (length clean)).

(** A CR immediately followed by LF somewhere in the text. *)
Fixpoint contains_crlf (s : jsstring) : bool :=
  match s with
  | [] => false
  | c :: rest =>
      (c =? 13)%N && JsString.starts_with_unit 10 rest || contains_crlf rest
  end.

(** A computation that ends in every world, with a value or an error. *)
Definition never_hangs {A} (m : M A) : Prop :=
  forall w, (m w).1 <> Hang.

(** Every value the computation can return satisfies [P]. *)
Definition returns {A} (m : M A) (P : A -> Prop) : Prop :=
  forall w a w', m w = (Ret a, w') -> P a.

(** A computation that sends nothing to the summarisation service. *)
Definition silent {A} (m : M A) : Prop :=
  forall w, api_log (m w).2 = api_log w.


(** The pages [first], [first + step], ... : [count] of them. *)
Definition page_steps (first step : Z) (count : nat) : list Z :=
  map (fun k => first + Z.of_nat k * step) (seq 0 count).

(** The answer of the generate handler to an assembly and to the outcome
    of the synthesis. *)
Definition generate_response (asm : Assembly) (out : outcome jsstring)
    : Response :=
  match out with
  | Ret breakdown =>
      {| status := 200;
         body := BreakdownBody breakdown
                   [user_turn (a_content asm); assistant_turn breakdown] |}
  | _ => error_response 500 (u "Failed to generate breakdown")
  end.

Definition value_of {A} (o : outcome A) : option A :=
  match o with Ret a => Some a | _ => None end.

(** ** Sample requests *)

(** A configured server with a given [pdf-parse] module and given file
    contents; the rasteriser writes one JPEG per run and the summarisation
    service answers every request with one line. *)
Definition studio (module : PdfParseModule)
    (contents : nat -> jsstring -> option bytes) : Env := {|
  ANTHROPIC_API_KEY := Some (u "sk-test");
  ANTHROPIC_MODEL := None;
  dirname := u "/app";
  pdf_parse := module;
  file_contents := contents;
  base64 := fun _ => u "QUJD";
  pdftoppm_help := fun _ => true;
  pdftoppm := fun _ args => ([default [] (last args) ++ u "-1.jpg"], true);
  date_now := fun _ => 1700000000000;
  random_hex := fun _ => u "9f3a";
  anthropic := fun _ _ => Some [TextBlock (u "SHOOT DAYS: 2")]
|}.

(** A [pdf-parse] function that finds the same text in every file. *)
Definition parses_to (text : jsstring) (numpages : Z) : PdfParseModule :=
  DefaultFunction
    (fun _ => Some {| raw_text := Some text; raw_numpages := Some numpages |}).

Definition readable : nat -> jsstring -> option bytes := fun _ _ => Some [].

Definition studio_env : Env :=
  studio (parses_to (u "2 shoot days, crew of 5") 1) readable.

(** A PDF with exactly [MULTIPASS_THRESHOLD_CHARS] characters of text. *)
Definition threshold_env : Env :=
  studio (parses_to (replicate (Z.to_nat MULTIPASS_THRESHOLD_CHARS) 97%N) 20) readable.


(** Rendered pages cannot be read back. *)
Definition unreadable_jpeg_env : Env :=
  studio (parses_to (u "scan") 1)
    (fun _ p => if JsString.endsWith p (u ".jpg") then None else Some []).

Definition brief_pdf : UploadedFile :=
  {| originalname := u "brief.pdf";
     filename := u "1700000000000-brief.pdf";
     path := u "/app/uploads/1700000000000-brief.pdf";
     size := 52000 |}.

Definition brief_world : World :=
  {| disk := {[ path brief_pdf ]}; api_log := []; clock := 0 |}.

Definition empty_world : World :=
  {| disk := ∅; api_log := []; clock := 0 |}.

Definition earlier_history : list Turn :=
  [ {| role := u "user"; content := [TextBlock (u "brief")] |};
    {| role := u "assistant"; content := [TextBlock (u "SHOOT DAYS: 1")] |} ].

Definition revise_with_history : ReviseBody :=
  {| revisionRequest := Some (u "add a second day");
     currentBreakdown := Some (u "SHOOT DAYS: 1");
     conversationHistory := Some earlier_history |}.

Definition revise_no_history : ReviseBody :=
  {| revisionRequest := Some (u "add a second day");
     currentBreakdown := Some (u "SHOOT DAYS: 1");
     conversationHistory := None |}.

(** A scanned PDF: one page, four characters of text. *)
Definition scan_env : Env := studio (parses_to (u "scan") 1) readable.

(** The file the rasteriser of [studio] leaves for page 1 of [brief_pdf]. *)
Definition rendered_page : jsstring :=
  u "/app/uploads/1700000000000-brief_pdf-1700000000000-9f3a-page-1-1.jpg".

(** A block the notes pass does not skip. *)
Definition summarised (b : ContentBlock) : Prop :=
  isGenericInstruction b = false.

(** [c] is [c0] followed by blocks the notes pass does not skip. *)
Definition extended_by_summarised (c0 c : list ContentBlock) : Prop :=
  exists added, c = c0 ++ added /\ Forall summarised added.

(** An indexed text block the notes pass does not skip, and the request
    made for it. *)
Definition kept (ib : nat * ContentBlock) : Prop := summarised ib.2.

Definition request_of (E : Env) (n : nat) (ib : nat * ContentBlock)
    : ApiRequest :=
  notes_request E ib.1 n ib.2.


(** ** Further notions used in the statements *)

(** The [k]-th window of [W] characters when windows start every
    [W - O] characters. *)
Definition chunk_window (clean : jsstring) (W O : Z) (k : nat) : jsstring :=
  take (Z.to_nat W) (drop (Z.to_nat (Z.of_nat k * (W - O))) clean).

(** How many windows it takes to reach the end of [len] characters. *)
Definition chunk_count (len W O : Z) : nat :=
  if len <=? W then 1%nat
  else S (Z.to_nat ((len - W + (W - O) - 1) / (W - O))).

(** A PDF whose raw text is padded with white space, and one whose raw
    text is nothing but white space. *)
Definition padded_env : Env :=
  studio (parses_to ([32; 10]%N ++ u "1 shoot day" ++ [13; 10; 9]%N) 1) readable.


(** The files the assembler treats as images and as PDFs; every other
    file it leaves out. *)
Definition is_image_file (f : UploadedFile) : bool :=
  JsString.startsWith (getMediaType (display_name f)) (u "image/").

Definition is_pdf_file (f : UploadedFile) : bool :=
  negb (is_image_file f)
  && bool_decide (getMediaType (display_name f) = u "application/pdf").

Definition is_supported_file (f : UploadedFile) : bool :=
  is_image_file f || is_pdf_file f.

Definition sum_Z (l : list Z) : Z := foldr Z.add 0 l.

(** [acc'] holds everything [acc] holds, in the same places. *)
Definition grown_from (acc acc' : Assembly) : Prop :=
  a_content acc `prefix_of` a_content acc'
  /\ a_pdfDiagnostics acc `prefix_of` a_pdfDiagnostics acc'
  /\ a_totalExtractedPdfChars acc <= a_totalExtractedPdfChars acc'.

(** The same environment with another [pdf-parse] module. *)
Definition with_pdf_parse (module : PdfParseModule) (E : Env) : Env :=
  {| ANTHROPIC_API_KEY := ANTHROPIC_API_KEY E;
     ANTHROPIC_MODEL := ANTHROPIC_MODEL E;
     dirname := dirname E;
     pdf_parse := module;
     file_contents := file_contents E;
     base64 := base64 E;
     pdftoppm_help := pdftoppm_help E;
     pdftoppm := pdftoppm E;
     date_now := date_now E;
     random_hex := random_hex E;
     anthropic := anthropic E |}.



(** ** The Word download *)

Module Docx.

(** [s.split(sep)] for a separator of at least one code unit: [s] is cut
    at every occurrence of [sep], found from left to right, an occurrence
    starting only where the one before has ended.  [skip] counts the units
    of the separator just found that are still to be passed. *)
Fixpoint split_from (sep : jsstring) (skip : nat) (s : jsstring)
    : list jsstring :=
  match s with
  | [] => [[]]
  | c :: rest =>
      match skip with
      | S k => split_from sep k rest
      | O =>
          if JsString.startsWith s sep
          then [] :: split_from sep (length sep - 1) rest
          else match split_from sep 0 rest with
               | piece :: pieces => (c :: piece) :: pieces
               | [] => [[c]]
               end
      end
  end.

Definition split (s sep : jsstring) : list jsstring := split_from sep 0 s.

(** The options of [new TextRun(...)], [new Paragraph(...)] and
    [new Document(...)] that the handler sets. *)
Record TextRun := { text : jsstring; bold : bool; size : option Z }.

Record Spacing := { before : option Z; after : option Z }.

Inductive HeadingLevel := HEADING_1.

Inductive AlignmentType := CENTER.

Record Paragraph := {
  children : list TextRun;
  paragraph_text : option jsstring;
  spacing : option Spacing;
  heading : option HeadingLevel;
  alignment : option AlignmentType
}.

Record Margin := { top : Z; right : Z; bottom : Z; left : Z }.

Record Page := { width : Z; height : Z; margin : Margin }.

Record Document := { page : Page; document_children : list Paragraph }.

(** [s.trim()] used as a condition. *)
Definition nonblank (s : jsstring) : bool := JsString.truthy (JsString.trim s).

Definition in_header_class (c : N) : bool :=
  ((65 <=? c) && (c <=? 90))%N || JsString.is_space c.

(** What is left of [t] after its longest prefix in [[A-Z\s]]. *)
Fixpoint after_header_class (t : jsstring) : jsstring :=
  match t with
  | [] => []
  | c :: rest => if in_header_class c then after_header_class rest else t
  end.

(** [/^[A-Z\s]+:?$/.test(t)]: the colon is not in the class, so the
    match is the longest class prefix, not empty, with nothing or one
    colon after it. *)
Definition header_pattern (t : jsstring) : bool :=
  match t with
  | [] => false
  | c :: _ =>
      in_header_class c
      && match after_header_class t with
         | [] => true
         | [d] => (d =? 58)%N
         | _ => false
         end
  end.

Definition isHeader (line : jsstring) : bool :=
  header_pattern (JsString.trim line)
  || JsString.endsWith (JsString.trim line) (u ":").

Definition header_paragraph (line : jsstring) : Paragraph :=
  {| children :=
       [{| text := JsString.trim line; bold := true; size := Some 28 |}];
     paragraph_text := None;
     spacing := Some {| before := Some 240; after := Some 120 |};
     heading := None;
     alignment := None |}.

Definition body_paragraph (line : jsstring) : Paragraph :=
  {| children := [{| text := line; bold := false; size := None |}];
     paragraph_text := None;
     spacing := Some {| before := None; after := Some 100 |};
     heading := None;
     alignment := None |}.

(** [new Paragraph({ text: "" })], pushed after each section. *)
Definition empty_paragraph : Paragraph :=
  {| children := [];
     paragraph_text := Some [];
     spacing := None;
     heading := None;
     alignment := None |}.

Definition line_paragraph (line : jsstring) : Paragraph :=
  if isHeader line then header_paragraph line else body_paragraph line.

(** What the inner [forEach] pushes for one line. *)
Definition line_paragraphs (line : jsstring) : list Paragraph :=
  if nonblank line then [line_paragraph line] else [].

(** What the outer [forEach] pushes for one section. *)
Definition section_paragraphs (section : jsstring) : list Paragraph :=
  if nonblank section
  then concat (line_paragraphs <$> split section nl) ++ [empty_paragraph]
  else [].

Definition paragraphs (breakdown : jsstring) : list Paragraph :=
  concat (section_paragraphs <$> split breakdown (nl ++ nl)).

Definition title_paragraph : Paragraph :=
  {| children :=
       [{| text := u "PRODUCTION BREAKDOWN"; bold := true; size := Some 36 |}];
     paragraph_text := None;
     spacing := Some {| before := None; after := Some 400 |};
     heading := Some HEADING_1;
     alignment := Some CENTER |}.

Definition document (breakdown : jsstring) : Document :=
  {| page := {| width := 12240; height := 15840;
                margin := {| top := 1440; right := 1440;
                             bottom := 1440; left := 1440 |} |};
     document_children := title_paragraph :: paragraphs breakdown |}.

(** [req.body.breakdown]: absent, a string, or another JSON value, of
    which only its truthiness matters. *)
Inductive JsonField :=
| Absent
| JsonString (s : jsstring)
| JsonOther (truthy : bool).

Inductive Download :=
| JsonError (status : Z) (error : jsstring)
| Attachment (contentType contentDisposition : jsstring) (buffer : bytes).

(** [POST /api/download-docx]; [toBuffer] is [Packer.toBuffer], [None]
    where it rejects.  A truthy value that is not a string has no [split]
    method: the call throws and the [catch] answers. *)
Definition download_docx (toBuffer : Document -> option bytes)
    (breakdown : JsonField) : Download :=
  let failed := JsonError 500 (u "Failed to generate Word document") in
  let missing := JsonError 400 (u "No breakdown provided") in
  match breakdown with
  | Absent => missing
  | JsonOther truthy => if truthy then failed else missing
  | JsonString s =>
      if JsString.truthy s then
        match toBuffer (document s) with
        | Some buffer =>
            Attachment
              (u "application/vnd.openxmlformats-officedocument.wordprocessingml.document")
              (u "attachment; filename=production-breakdown.docx")
              buffer
        | None => failed
        end
      else missing
  end.

(** The header test of the earlier version of the handler
    (src/unnamed/part_000): the colon is looked for at the end of the
    line as written, not of the trimmed line. *)
Definition isHeader_legacy (line : jsstring) : bool :=
  header_pattern (JsString.trim line) || JsString.endsWith line (u ":").

(** A paragraph that carries text. *)
Definition has_run (p : Paragraph) : bool :=
  match children p with [] => false | _ => true end.

(** Two lists of lines with the same first line and, after it, the same
    lines but for empty ones. *)
Definition same_lines (a b : list jsstring) : Prop :=
  exists h t t',
    a = h :: t /\ b = h :: t'
    /\ filter (fun l => l <> []) t = filter (fun l => l <> []) t'.

End Docx.

(** A request with an image, a PDF and a file of another type. *)
Definition moodboard_png : UploadedFile :=
  {| originalname := u "moodboard.PNG";
     filename := u "1700000000001-moodboard.PNG";
     path := u "/app/uploads/1700000000001-moodboard.PNG";
     size := 204800 |}.

Definition notes_txt : UploadedFile :=
  {| originalname := u "notes.txt";
     filename := u "1700000000002-notes.txt";
     path := u "/app/uploads/1700000000002-notes.txt";
     size := 120 |}.

Definition mixed_world : World :=
  {| disk := {[ path moodboard_png; path brief_pdf; path notes_txt ]};
     api_log := [];
     clock := 0 |}.

(** A summarisation service that rejects the second request it gets. *)
Definition flaky_env : Env := {|
  ANTHROPIC_API_KEY := Some (u "sk-test");
  ANTHROPIC_MODEL := None;
  dirname := u "/app";
  pdf_parse := parses_to (u "2 shoot days, crew of 5") 1;
  file_contents := readable;
  base64 := fun _ => u "QUJD";
  pdftoppm_help := fun _ => true;
  pdftoppm := fun _ args => ([default [] (last args) ++ u "-1.jpg"], true);
  date_now := fun _ => 1700000000000;
  random_hex := fun _ => u "9f3a";
  anthropic := fun t _ =>
    if (t =? 1)%nat then None else Some [TextBlock (u "CREW: Director 1x")]
|}.

Definition three_chunks : list ContentBlock :=
  [ TextBlock GENERATE_MESSAGE;
    TextBlock (u "chunk one");
    ImageBlock (u "image/png") (u "QUJD");
    TextBlock (u "chunk two");
    TextBlock (u "chunk three") ].

(** * Properties *)

(** ** Chunker *)

Section Chunker.

Implicit Types (s clean T : jsstring) (chunks : list jsstring).

Lemma slice_in_range {A} (l : list A) (a b : Z) :
  0 <= a <= Z.of_nat (length l) -> 0 <= b <= Z.of_nat (length l) ->
  JsString.slice l a b = take (Z.to_nat (b - a)) (drop (Z.to_nat a) l).
Proof.
  intros Ha Hb. unfold JsString.slice, JsString.rel_index.
  destruct (Z.ltb_spec a 0), (Z.ltb_spec b 0); try lia.
  rewrite !Z.min_l by lia. reflexivity.
Qed.

Lemma rebuild_snoc (O : Z) chunks (c : jsstring) :
  chunks <> [] ->
  rebuild O (chunks ++ [c]) = rebuild O chunks ++ drop (Z.to_nat O) c.
Proof.
  destruct chunks as [|c0 cs]; [congruence|]. intros _. simpl.
  rewrite map_app, concat_app. simpl. rewrite app_nil_r, app_assoc. reflexivity.
Qed.

Lemma take_snoc_window clean (s O e : Z) :
  0 <= s -> 0 <= O -> s + O <= e ->
  take (Z.to_nat (s + O)) clean
    ++ drop (Z.to_nat O) (take (Z.to_nat (e - s)) (drop (Z.to_nat s) clean))
  = take (Z.to_nat e) clean.
Proof.
  intros Hs HO He.
  replace (Z.to_nat (e - s)) with (Z.to_nat O + Z.to_nat (e - s - O))%nat by lia.
  rewrite <- take_drop_commute, drop_drop.
  replace (Z.to_nat s + Z.to_nat O)%nat with (Z.to_nat (s + O)) by lia.
  rewrite take_take_drop. f_equal. lia.
Qed.

Lemma chunk_loop_rebuild clean (W O : Z) :
  0 <= O < W ->
  forall (fuel : nat) (s : Z) chunks,
    0 <= s < Z.of_nat (length clean) ->
    Z.of_nat (length clean) - s < Z.of_nat fuel ->
    chunk_inv clean O s chunks ->
    exists res, chunk_loop fuel clean W O s chunks = Some res
                /\ res <> [] /\ rebuild O res = clean.
Proof.
  intros HO. induction fuel as [|fuel IH]; intros s chunks Hs Hfuel Hinv; [lia|].
  simpl. destruct (Z.ltb_spec s (Z.of_nat (length clean))); [|lia].
  set (e := Z.min (s + W) (Z.of_nat (length clean))).
  assert (He : s < e <= Z.of_nat (length clean)) by (unfold e; lia).
  assert (Hre : rebuild O (chunks ++ [JsString.slice clean s e])
                = take (Z.to_nat e) clean).
  { rewrite slice_in_range by lia.
    destruct Hinv as [[-> ->]|(Hne & Hre & Hlen)].
    - simpl. rewrite app_nil_r, drop_0. f_equal. lia.
    - rewrite rebuild_snoc, Hre by assumption.
      apply take_snoc_window; unfold e; lia. }
  assert (Hne : chunks ++ [JsString.slice clean s e] <> [])
    by (destruct chunks; discriminate).
  destruct (Z.geb_spec e (Z.of_nat (length clean))) as [Hge|Hlt].
  - eexists. split; [reflexivity|]. split; [assumption|].
    rewrite Hre. apply take_ge. lia.
  - assert (e = s + W) by (unfold e; lia).
    apply IH; [lia | lia |].
    right. split; [assumption|]. rewrite Hre. split; [f_equal; lia | lia].
Qed.

Lemma trim_nonempty s : JsString.trim s <> [] -> s <> [].
Proof. intros H ->. apply H. reflexivity. Qed.

Lemma truthy_false s : JsString.truthy s = false <-> s = [].
Proof. destruct s; simpl; split; congruence. Qed.

(** Below the window, any overlap lets the loop advance: it returns
    within one turn per character left. *)
Lemma chunk_loop_returns clean (W O : Z) :
  O < W ->
  forall (fuel : nat) (s : Z) chunks,
    0 <= s -> Z.max 0 (Z.of_nat (length clean) - s) < Z.of_nat fuel ->
    is_Some (chunk_loop fuel clean W O s chunks).
Proof.
  intros HO. induction fuel as [|fuel IH]; intros s chunks Hs Hfuel; simpl.
  - lia.
  - destruct (Z.ltb_spec s (Z.of_nat (length clean))); [|eauto].
    destruct (Z.geb_spec (Z.min (s + W) (Z.of_nat (length clean)))
                (Z.of_nat (length clean))); [eauto|].
    apply IH; lia.
Qed.

(** An overlap that is not below the window sends the loop back to the
    start for ever, on any text longer than the window. *)
Lemma chunk_loop_never_returns clean (W O : Z) :
  W <= O -> W < Z.of_nat (length clean) -> 0 < Z.of_nat (length clean) ->
  forall (fuel : nat) chunks, chunk_loop fuel clean W O 0 chunks = None.
Proof.
  intros HO HW Hlen. induction fuel as [|fuel IH]; intros chunks; simpl.
  - reflexivity.
  - destruct (Z.ltb_spec 0 (Z.of_nat (length clean))); [|lia].
    rewrite Z.add_0_l, Z.min_l by lia.
    destruct (Z.geb_spec W (Z.of_nat (length clean))); [lia|].
    rewrite Z.max_l by lia. apply IH.
Qed.

(** The chunker returns whenever the overlap is below the window. *)
Lemma chunkText_total (text : option jsstring) (W O : Z) :
  O < W -> is_Some (chunkText text W O).
Proof.
  intros HO. unfold chunkText.
  destruct (JsString.truthy _); cbn [negb]; [|eauto].
  apply chunk_loop_returns; [assumption | lia | lia].
Qed.

Lemma replace_crlf_id s : contains_crlf s = false -> JsString.replace_crlf s = s.
Proof.
  induction s as [|c rest IH]; [reflexivity|]. simpl.
  intros [-> Hrest]%orb_false_iff. rewrite IH by assumption. reflexivity.
Qed.

(** C4, as the code has it: for a window [W] and an overlap [O] with
    [0 <= O < W], the chunker returns, and gluing its chunks back together
    with the [O]-character overlaps removed gives the text after every
    CR LF pair has been turned into LF, which is the text itself when it
    has no such pair; a text that is blank after that normalisation gives
    no chunk at all.  The chunker is a function of its three arguments, so
    two runs on the same input agree. *)
Theorem chunkText_rebuilds_normalised_text (T : jsstring) (W O : Z) :
  0 <= O < W ->
  let clean := JsString.replace_crlf T in
  (contains_crlf T = false -> clean = T)
  /\ (JsString.trim clean = [] -> chunkText (Some T) W O = Some [])
  /\ (JsString.trim clean <> [] ->
      exists chunks,
        chunkText (Some T) W O = Some chunks
        /\ chunks <> [] /\ rebuild O chunks = clean).
Proof.
  intros HO clean. split; [apply replace_crlf_id|].
  unfold chunkText. simpl default. fold clean. split.
  - intros ->. reflexivity.
  - intros Hne.
    destruct (JsString.truthy (JsString.trim clean)) eqn:Ht;
      [|apply truthy_false in Ht; congruence].
    cbn [negb]. apply trim_nonempty in Hne.
    apply (chunk_loop_rebuild clean W O HO).
    + destruct clean; [congruence|]. simpl length. lia.
    + lia.
    + left. auto.
Qed.

Lemma chunkText_rebuilds_normalised_text_witness :
  let T := u "storyboard, 12 frames" in
  let clean := JsString.replace_crlf T in
  (contains_crlf T = false -> clean = T)
  /\ (JsString.trim clean = [] -> chunkText (Some T) 8 3 = Some [])
  /\ (JsString.trim clean <> [] ->
      exists chunks,
        chunkText (Some T) 8 3 = Some chunks
        /\ chunks <> [] /\ rebuild 3 chunks = clean).
Proof. apply (chunkText_rebuilds_normalised_text _ 8 3). lia. Defined.

(** A text with a CR LF pair is not what its chunks rebuild. *)
Lemma chunkText_crlf_not_rebuilt :
  let T := u "a" ++ [13%N; 10%N] ++ u "b" in
  exists chunks,
    chunkText (Some T) 10 2 = Some chunks /\ rebuild 2 chunks <> T.
Proof. eexists. split; [reflexivity|]. discriminate. Qed.

(** Nor is a blank text, which gives no chunk, ... *)
Lemma chunkText_blank_not_rebuilt :
  chunkText (Some (u "  ")) 10 2 = Some [] /\ rebuild 2 [] <> u "  ".
Proof. split; [reflexivity | discriminate]. Qed.

(** ... nor a text chunked with a negative overlap, which skips
    characters between the windows. *)
Lemma chunkText_negative_overlap_not_rebuilt :
  chunkText (Some (u "abcdefgh")) 3 (-1) = Some [u "abc"; u "efg"]
  /\ rebuild (-1) [u "abc"; u "efg"] <> u "abcdefgh".
Proof. split; [reflexivity | discriminate]. Qed.

End Chunker.

(** ** Reasoning about effects *)

Lemma never_hangs_ret {A : Type} (a : A) : never_hangs (ret a).
Proof. intros w. discriminate. Qed.

Lemma never_hangs_throw {A : Type} (e : JsError) : never_hangs (@throw A e).
Proof. intros w. discriminate. Qed.

Lemma never_hangs_bind {A B : Type} (m : M A) (k : A -> M B) :
  never_hangs m -> (forall a, never_hangs (k a)) -> never_hangs (bind m k).
Proof.
  intros Hm Hk w. unfold bind. specialize (Hm w).
  destruct (m w) as [[a|e|] w1]; simpl in *; [apply Hk | discriminate | congruence].
Qed.

Lemma never_hangs_try_catch {A : Type} (m : M A) (h : JsError -> M A) :
  never_hangs m -> (forall e, never_hangs (h e)) -> never_hangs (try_catch m h).
Proof.
  intros Hm Hh w. unfold try_catch. specialize (Hm w).
  destruct (m w) as [[a|e|] w1]; simpl in *; [discriminate | apply Hh | congruence].
Qed.

Lemma never_hangs_terminating {A : Type} (r : option A) :
  is_Some r -> never_hangs (terminating r).
Proof. intros [a ->] w. discriminate. Qed.

Lemma never_hangs_for_of {A B : Type} (l : list B) (body : A -> B -> M A) :
  (forall acc x, never_hangs (body acc x)) ->
  forall acc, never_hangs (for_of l body acc).
Proof.
  intros Hbody. induction l as [|x rest IH]; intros acc; simpl.
  - apply never_hangs_ret.
  - apply never_hangs_bind; auto.
Qed.

Lemma returns_ret {A : Type} (a : A) (P : A -> Prop) : P a -> returns (ret a) P.
Proof. intros HP w a' w' [= <- _]. assumption. Qed.

Lemma returns_bind {A B : Type} (m : M A) (k : A -> M B) (P : A -> Prop) (Q : B -> Prop) :
  returns m P -> (forall a, P a -> returns (k a) Q) -> returns (bind m k) Q.
Proof.
  intros Hm Hk w b w'. unfold bind.
  destruct (m w) as [[a|e|] w1] eqn:Hrun; try discriminate.
  intros Hka. eapply Hk; [eapply Hm|]; eassumption.
Qed.

Lemma returns_weaken {A : Type} (m : M A) (P Q : A -> Prop) :
  returns m P -> (forall a, P a -> Q a) -> returns m Q.
Proof. intros Hm HPQ w a w' Hrun. eauto. Qed.

Lemma returns_try_catch {A : Type} (m : M A) (h : JsError -> M A) (P : A -> Prop) :
  returns m P -> (forall e, returns (h e) P) -> returns (try_catch m h) P.
Proof.
  intros Hm Hh w a w'. unfold try_catch.
  destruct (m w) as [[a0|e|] w1] eqn:Hrun; try discriminate.
  - intros [= <- <-]. eapply Hm; eassumption.
  - intros Hrun'. eapply Hh; eassumption.
Qed.

(** An invariant of the accumulator of a loop. *)
Lemma returns_for_of {A B : Type} (l : list B) (body : A -> B -> M A) (I : A -> Prop) :
  (forall acc x, I acc -> returns (body acc x) I) ->
  forall acc, I acc -> returns (for_of l body acc) I.
Proof.
  intros Hbody. induction l as [|x rest IH]; intros acc Hacc; simpl.
  - apply returns_ret. assumption.
  - eapply returns_bind; [apply Hbody; assumption|]. auto.
Qed.



Lemma never_hangs_finally {A} (m : M A) (c : M unit) :
  never_hangs m -> never_hangs c -> never_hangs (finally m c).
Proof.
  intros Hm Hc w. unfold finally. specialize (Hm w).
  destruct (m w) as [[a|e|] w1]; simpl in *; try congruence;
    specialize (Hc w1); destruct (c w1) as [[[]|e'|] w2]; simpl in *;
    congruence.
Qed.

Create HintDb nh discriminated.

#[local] Hint Resolve never_hangs_ret never_hangs_throw never_hangs_bind
  never_hangs_try_catch never_hangs_terminating never_hangs_for_of
  never_hangs_finally : nh.

(** ** Page sampling *)

Section Sampling.

Implicit Types (pages interval p : Z) (l : list Z).

Lemma page_steps_S first step count :
  page_steps first step (S count)
  = first :: page_steps (first + step) step count.
Proof.
  unfold page_steps. simpl. f_equal; [lia|].
  rewrite <- seq_shift, map_map. apply map_ext. intros k. lia.
Qed.

(** The loop pushes [p], [p + interval], ... up to [pages] and stops. *)
Lemma sample_loop_steps interval pages :
  0 < interval ->
  forall (fuel : nat) p l,
    (0 < fuel)%nat -> pages - p < (Z.of_nat fuel - 1) * interval ->
    sample_loop fuel p interval pages l
    = Some (l ++ page_steps p interval
                   (Z.to_nat ((pages - p + interval) / interval))).
Proof.
  intros Hi. induction fuel as [|fuel IH]; intros p l Hpos Hfuel; [lia|].
  rewrite Nat2Z.inj_succ in Hfuel.
  simpl. destruct (Z.leb_spec p pages) as [Hle|Hgt].
  - rewrite IH by nia.
    replace (pages - p + interval) with ((pages - p) + 1 * interval) by lia.
    rewrite Z.div_add by lia.
    replace (pages - (p + interval) + interval) with (pages - p) by lia.
    assert (0 <= (pages - p) / interval) by (apply Z.div_pos; lia).
    replace (Z.to_nat ((pages - p) / interval + 1))
      with (S (Z.to_nat ((pages - p) / interval))) by lia.
    rewrite page_steps_S, <- app_assoc. reflexivity.
  - assert ((pages - p + interval) / interval <= 0).
    { destruct (Z.le_gt_cases 0 (pages - p + interval)).
      - rewrite Z.div_small by lia. lia.
      - apply Z.lt_le_incl, Z.div_lt_upper_bound; lia. }
    replace (Z.to_nat ((pages - p + interval) / interval)) with 0%nat by lia.
    rewrite app_nil_r. reflexivity.
Qed.

Lemma sample_interval_ge pages : 2 <= sample_interval pages.
Proof. unfold sample_interval. lia. Qed.

(** The sampling loop always ends, and on a document with pages it
    yields page 1 and every [interval]-th page after it. *)
Lemma samplePages_steps pages :
  0 < pages ->
  samplePages pages
  = Some (page_steps 1 (sample_interval pages)
            (S (Z.to_nat ((pages - 1) / sample_interval pages)))).
Proof.
  intros Hp. unfold samplePages.
  pose proof (sample_interval_ge pages) as Hi.
  rewrite sample_loop_steps by nia.
  rewrite page_steps_S.
  replace (pages - (1 + sample_interval pages) + sample_interval pages)
    with (pages - 1) by lia.
  reflexivity.
Qed.

Lemma samplePages_total pages : is_Some (samplePages pages).
Proof.
  unfold samplePages. pose proof (sample_interval_ge pages) as Hi.
  rewrite sample_loop_steps by nia. eauto.
Qed.

Lemma page_steps_elem first step count p :
  p ∈ page_steps first step count <->
  exists k : nat, (k < count)%nat /\ p = first + Z.of_nat k * step.
Proof.
  unfold page_steps. rewrite list_elem_of_fmap. split.
  - intros (k & -> & Hk). apply elem_of_seq in Hk. exists k. split; [lia|done].
  - intros (k & Hk & ->). exists k. split; [done|]. apply elem_of_seq. lia.
Qed.

Lemma page_steps_NoDup first step count :
  0 < step -> NoDup (page_steps first step count).
Proof.
  intros Hs. unfold page_steps. apply NoDup_fmap_2; [|apply NoDup_seq].
  intros j k Hjk. nia.
Qed.

Lemma set_order_NoDup seen l :
  NoDup l -> (forall x, x ∈ l -> x ∉ seen) -> set_order seen l = l.
Proof.
  intros Hnd. revert seen. induction Hnd as [|x l Hx Hnd IH]; intros seen Hseen.
  - reflexivity.
  - simpl. rewrite bool_decide_eq_false_2 by (apply Hseen; left).
    f_equal. apply IH. intros y Hy [->|Hin]%elem_of_cons; [done|].
    eapply Hseen; [right|]; eassumption.
Qed.

Lemma filter_all {T} (P : T -> Prop) `{forall x, Decision (P x)} (l : list T) :
  Forall P l -> filter P l = l.
Proof.
  induction 1 as [|x l Hx Hl IH]; [reflexivity|].
  rewrite filter_cons_True by assumption. f_equal. assumption.
Qed.

Lemma slice_from_start {T} (l : list T) (b : Z) :
  0 <= b -> JsString.slice l 0 b = take (Z.to_nat b) l.
Proof.
  intros Hb. unfold JsString.slice, JsString.rel_index.
  destruct (Z.ltb_spec b 0); [lia|]. cbn [Z.ltb Z.compare].
  rewrite (Z.min_l 0), Z.sub_0_r, drop_0 by lia.
  destruct (Z.le_gt_cases b (Z.of_nat (length l))).
  - rewrite Z.min_l by lia. reflexivity.
  - rewrite Z.min_r, !take_ge by lia. reflexivity.
Qed.

Lemma uniquePages_steps pages :
  0 < pages ->
  let sampled := page_steps 1 (sample_interval pages)
                   (S (Z.to_nat ((pages - 1) / sample_interval pages))) in
  uniquePages pages sampled = sampled.
Proof.
  intros Hp sampled. pose proof (sample_interval_ge pages) as Hi.
  unfold uniquePages.
  rewrite set_order_NoDup;
    [| apply page_steps_NoDup; lia | intros x _; apply not_elem_of_nil].
  apply filter_all, Forall_forall. intros p (k & Hk & ->)%page_steps_elem.
  assert (0 <= (pages - 1) / sample_interval pages) by (apply Z.div_pos; lia).
  assert (sample_interval pages * ((pages - 1) / sample_interval pages)
          <= pages - 1) by (apply Z.mul_div_le; lia).
  apply Is_true_true, andb_true_iff. split; [apply Z.leb_le | apply Z.leb_le]; nia.
Qed.

(** C7: on a document with pages, the sampled pages are page 1 and then
    every [interval]-th page from [1 + interval] on, with
    [interval = max 2 (floor (pages / 5))], without repetition and within
    [1, pages]; at most [VISUAL_RENDER_MAX_PAGES] of them, the first ones,
    are rendered.  For 20 pages the pages before the cap are 1, 5, 9, 13
    and 17. *)
Theorem sampled_pages_evenly_spaced (pages : Z) :
  0 < pages ->
  let interval := Z.max 2 (pages / 5) in
  exists sampled,
    samplePages pages = Some sampled
    /\ uniquePages pages sampled
       = page_steps 1 interval (S (Z.to_nat ((pages - 1) / interval)))
    /\ cappedPages pages sampled
       = take (Z.to_nat VISUAL_RENDER_MAX_PAGES) (uniquePages pages sampled)
    /\ head (cappedPages pages sampled) = Some 1
    /\ NoDup (cappedPages pages sampled)
    /\ (forall p, p ∈ cappedPages pages sampled -> 1 <= p <= pages)
    /\ Z.of_nat (length (cappedPages pages sampled)) <= VISUAL_RENDER_MAX_PAGES
    /\ (pages = 20 -> uniquePages pages sampled = [1; 5; 9; 13; 17]).
Proof.
  intros Hp interval. fold (sample_interval pages) in interval.
  pose proof (sample_interval_ge pages) as Hi. fold interval in Hi.
  pose proof (uniquePages_steps pages Hp) as Hu. cbv zeta in Hu.
  fold interval in Hu.
  set (sampled := page_steps 1 interval
                    (S (Z.to_nat ((pages - 1) / interval)))) in *.
  assert (Hcap : cappedPages pages sampled
                 = take (Z.to_nat VISUAL_RENDER_MAX_PAGES) sampled).
  { unfold cappedPages. rewrite Hu. apply slice_from_start. done. }
  assert (Hrange : forall p, p ∈ sampled -> 1 <= p <= pages).
  { intros p (k & Hk & ->)%page_steps_elem.
    assert (0 <= (pages - 1) / interval) by (apply Z.div_pos; lia).
    assert (interval * ((pages - 1) / interval) <= pages - 1)
      by (apply Z.mul_div_le; lia).
    nia. }
  exists sampled. rewrite Hu, Hcap.
  split; [apply samplePages_steps; assumption|].
  split; [reflexivity|]. split; [reflexivity|].
  split; [unfold sampled; rewrite page_steps_S; reflexivity|].
  split; [eapply sublist_NoDup; [|apply sublist_take];
          apply page_steps_NoDup; lia|].
  split; [intros p Hin; apply Hrange; revert Hin; apply subseteq_take|].
  split; [rewrite length_take; unfold VISUAL_RENDER_MAX_PAGES; lia|].
  intros ->. reflexivity.
Qed.

Lemma sampled_pages_evenly_spaced_witness :
  exists sampled,
    samplePages 100 = Some sampled
    /\ uniquePages 100 sampled = page_steps 1 20 5
    /\ cappedPages 100 sampled = take 6 (uniquePages 100 sampled)
    /\ head (cappedPages 100 sampled) = Some 1
    /\ NoDup (cappedPages 100 sampled)
    /\ (forall p, p ∈ cappedPages 100 sampled -> 1 <= p <= 100)
    /\ Z.of_nat (length (cappedPages 100 sampled)) <= 6
    /\ (100 = 20 -> uniquePages 100 sampled = [1; 5; 9; 13; 17]).
Proof. apply (sampled_pages_evenly_spaced 100). lia. Defined.

End Sampling.

(** ** The visual-fallback decision *)

Section Fallback.


(** The density test on integers: [textChars / pages] is below [bound]
    exactly when [textChars] is below [bound * pages]. *)
Lemma density_below (textChars pages bound : Z) :
  0 < pages ->
  (inject_Z textChars / inject_Z pages < inject_Z bound)%Q
  <-> textChars < bound * pages.
Proof.
  intros Hp. unfold Qlt, Qdiv, Qmult, Qinv, inject_Z. simpl.
  destruct pages as [|p|p]; try lia. simpl. lia.
Qed.


End Fallback.

(** ** Termination of the pipeline *)

Section Termination.

Variable E : Env.

Ltac run_prim :=
  intros w; cbv [tick readFile unlink readdir execFile_pdftoppm messages_create
                 bind ret throw fst];
  by repeat (case_match; simplify_eq/=).

Lemma never_hangs_tick : never_hangs tick.
Proof. run_prim. Qed.

Lemma never_hangs_readFile p : never_hangs (readFile E p).
Proof. run_prim. Qed.

Lemma never_hangs_unlink p : never_hangs (unlink p).
Proof. run_prim. Qed.

Lemma never_hangs_readdir dir : never_hangs (readdir dir).
Proof. run_prim. Qed.

Lemma never_hangs_execFile args : never_hangs (execFile_pdftoppm E args).
Proof. run_prim. Qed.

Lemma never_hangs_messages_create req : never_hangs (messages_create E req).
Proof. run_prim. Qed.

Hint Resolve never_hangs_tick never_hangs_readFile never_hangs_unlink
  never_hangs_readdir never_hangs_execFile never_hangs_messages_create : nh.

Lemma never_hangs_legacy_adapter parse buffer :
  never_hangs (legacy_adapter parse buffer).
Proof. unfold legacy_adapter. destruct (parse buffer); auto with nh. Qed.

Lemma never_hangs_extractPdfText p : never_hangs (extractPdfText E p).
Proof.
  unfold extractPdfText, getPdfParseAdapter.
  apply never_hangs_bind; [auto with nh|]. intros buffer.
  destruct (pdf_parse E) as [parse|parse|getText getInfo|keys]; intros w;
    cbv [bind ret throw fst].
  1,2: apply never_hangs_legacy_adapter.
  - destruct (getText buffer); [destruct (getInfo buffer)|]; discriminate.
  - discriminate.
Qed.

Lemma never_hangs_fileToBase64 p : never_hangs (fileToBase64 E p).
Proof. unfold fileToBase64. auto with nh. Qed.

Lemma never_hangs_renderPdfPageToJpeg pdfPath pageNumber outputDir :
  never_hangs (renderPdfPageToJpeg E pdfPath pageNumber outputDir).
Proof.
  unfold renderPdfPageToJpeg.
  repeat (apply never_hangs_bind; [solve [auto with nh]|]; intros ?).
  case_match; auto with nh.
Qed.

Hint Resolve never_hangs_extractPdfText never_hangs_fileToBase64
  never_hangs_renderPdfPageToJpeg : nh.

Lemma never_hangs_render_page file renderDir content pageNum :
  never_hangs (render_page E file renderDir content pageNum).
Proof.
  unfold render_page. apply never_hangs_try_catch; [|auto with nh].
  repeat (apply never_hangs_bind; [solve [auto with nh]|]; intros ?). auto with nh.
Qed.

Hint Resolve never_hangs_render_page samplePages_total : nh.

Lemma never_hangs_visual_fallback canRender file pages content :
  never_hangs (visual_fallback E canRender file pages content).
Proof.
  unfold visual_fallback. destruct canRender; simpl; [|auto with nh].
  repeat (apply never_hangs_bind; [solve [auto with nh]|]; intros ?). auto with nh.
Qed.

Lemma pdf_chunks_total text :
  is_Some (chunkText text PDF_TEXT_CHUNK_CHARS PDF_TEXT_CHUNK_OVERLAP).
Proof. apply chunkText_total. unfold PDF_TEXT_CHUNK_CHARS, PDF_TEXT_CHUNK_OVERLAP. lia. Qed.

Hint Resolve never_hangs_visual_fallback pdf_chunks_total : nh.

Lemma never_hangs_process_file canRender acc file :
  never_hangs (process_file E canRender acc file).
Proof.
  unfold process_file, process_pdf. repeat case_match; auto 10 with nh.
  repeat (apply never_hangs_bind; [solve [auto with nh]|]; intros ?).
  apply never_hangs_bind; [case_match; auto with nh|]. auto with nh.
Qed.

Lemma never_hangs_isPdftoppmAvailable : never_hangs (isPdftoppmAvailable E).
Proof. unfold isPdftoppmAvailable. auto with nh. Qed.

Hint Resolve never_hangs_process_file never_hangs_isPdftoppmAvailable : nh.

Lemma never_hangs_createContentWithFiles files message :
  never_hangs (createContentWithFiles E files message).
Proof. unfold createContentWithFiles. auto with nh. Qed.

Lemma never_hangs_runSinglePass content : never_hangs (runSinglePass E content).
Proof. unfold runSinglePass. auto with nh. Qed.

Lemma never_hangs_notes_step n notes ib : never_hangs (notes_step E n notes ib).
Proof. unfold notes_step. destruct ib. case_match; auto with nh. Qed.

Hint Resolve never_hangs_notes_step : nh.

Lemma never_hangs_runMultiPassBreakdown content :
  never_hangs (runMultiPassBreakdown E content).
Proof. unfold runMultiPassBreakdown. auto 10 with nh. Qed.

Hint Resolve never_hangs_createContentWithFiles never_hangs_runSinglePass
  never_hangs_runMultiPassBreakdown : nh.

Lemma never_hangs_synthesize asm : never_hangs (synthesize E asm).
Proof. unfold synthesize. case_match; auto with nh. Qed.

Hint Resolve never_hangs_synthesize : nh.

Lemma never_hangs_generate_try files : never_hangs (generate_try E files).
Proof. unfold generate_try. repeat case_match; auto 10 with nh. Qed.

(** A [try] block that ends, under a handler that returns, returns. *)
Lemma try_catch_returns {A} (m : M A) (h : JsError -> A) (w : World) :
  never_hangs m ->
  exists a w', try_catch m (fun e => ret (h e)) w = (Ret a, w')
               /\ w' = (m w).2.
Proof.
  intros Hm. unfold try_catch, ret. specialize (Hm w).
  destruct (m w) as [[a|e|] w1]; simpl in *; [eauto | eauto | congruence].
Qed.

Lemma cleanup_cons (p : jsstring) (rest : list jsstring) (w : World) :
  cleanup (p :: rest) w
  = cleanup rest (if bool_decide (p ∈ disk w)
                  then set_disk (disk w ∖ {[p]}) w else w).
Proof.
  unfold cleanup. cbn [for_of]. unfold bind at 1, try_catch, unlink, ret.
  destruct (bool_decide (p ∈ disk w)); reflexivity.
Qed.

(** The [finally] block deletes every path it is given and touches
    nothing else. *)
Lemma cleanup_spec (paths : list jsstring) (w : World) :
  exists w', cleanup paths w = (Ret tt, w')
             /\ disk w' = disk w ∖ list_to_set paths
             /\ api_log w' = api_log w /\ clock w' = clock w.
Proof.
  revert w. induction paths as [|p rest IH]; intros w.
  - exists w. repeat split. simpl. set_solver.
  - rewrite cleanup_cons.
    destruct (IH (if bool_decide (p ∈ disk w)
                  then set_disk (disk w ∖ {[p]}) w else w))
      as (w' & -> & Hd & Hl & Hc).
    exists w'. split; [reflexivity|].
    rewrite Hd, Hl, Hc. case_bool_decide; simpl; repeat split; set_solver.
Qed.

(** The shape of every run of the generate handler: the [try] block
    with its [catch] yields a response, then the [finally] block removes
    the uploads and leaves the rest of the world alone. *)
Lemma generate_breakdown_run (req_files : option (list UploadedFile))
    (w : World) :
  let files := default [] req_files in
  exists resp w1 w',
    try_catch (generate_try E files)
      (fun _ => ret (error_response 500 (u "Failed to generate breakdown"))) w
    = (Ret resp, w1)
    /\ generate_breakdown E req_files w = (Ret resp, w')
    /\ disk w' = disk w1 ∖ list_to_set (map path files)
    /\ api_log w' = api_log w1.
Proof.
  intros files.
  destruct (try_catch_returns (generate_try E files)
              (fun _ => error_response 500 (u "Failed to generate breakdown")) w
              (never_hangs_generate_try files)) as (resp & w1 & Hrun & _).
  destruct (cleanup_spec (map path files) w1) as (w2 & Hclean & Hdisk & Hlog & _).
  exists resp, w1, w2. repeat split; try assumption.
  unfold generate_breakdown, finally. fold files. rewrite Hrun, Hclean.
  reflexivity.
Qed.



End Termination.

(** ** The assembler makes no synthesis request *)

Lemma silent_ret {A} (a : A) : silent (ret a).
Proof. intros w. reflexivity. Qed.

Lemma silent_throw {A} (e : JsError) : silent (@throw A e).
Proof. intros w. reflexivity. Qed.

Lemma silent_terminating {A} (r : option A) : silent (terminating r).
Proof. intros w. destruct r; reflexivity. Qed.

Lemma silent_bind {A B} (m : M A) (k : A -> M B) :
  silent m -> (forall a, silent (k a)) -> silent (bind m k).
Proof.
  intros Hm Hk w. unfold bind. specialize (Hm w).
  destruct (m w) as [[a|e|] w1]; simpl in *; [|assumption..].
  rewrite Hk. assumption.
Qed.

Lemma silent_try_catch {A} (m : M A) (h : JsError -> M A) :
  silent m -> (forall e, silent (h e)) -> silent (try_catch m h).
Proof.
  intros Hm Hh w. unfold try_catch. specialize (Hm w).
  destruct (m w) as [[a|e|] w1]; simpl in *; [assumption| |assumption].
  rewrite Hh. assumption.
Qed.

Lemma silent_for_of {A B} (l : list B) (body : A -> B -> M A) :
  (forall acc x, silent (body acc x)) -> forall acc, silent (for_of l body acc).
Proof.
  intros Hbody. induction l as [|x rest IH]; intros acc; simpl.
  - apply silent_ret.
  - apply silent_bind; auto.
Qed.

Create HintDb quiet discriminated.

#[local] Hint Resolve silent_ret silent_throw silent_terminating silent_bind
  silent_try_catch silent_for_of : quiet.

Section Silent.

Variable E : Env.

Ltac quiet_prim :=
  intros w; cbv [tick readFile unlink readdir execFile_pdftoppm bind ret
                 throw snd set_disk];
  by repeat (case_match; simplify_eq/=).

Lemma silent_tick : silent tick.
Proof. quiet_prim. Qed.

Lemma silent_readFile p : silent (readFile E p).
Proof. quiet_prim. Qed.

Lemma silent_unlink p : silent (unlink p).
Proof. quiet_prim. Qed.

Lemma silent_readdir dir : silent (readdir dir).
Proof. quiet_prim. Qed.

Lemma silent_execFile args : silent (execFile_pdftoppm E args).
Proof. quiet_prim. Qed.

Hint Resolve silent_tick silent_readFile silent_unlink silent_readdir
  silent_execFile : quiet.

Lemma silent_extractPdfText p : silent (extractPdfText E p).
Proof.
  unfold extractPdfText, getPdfParseAdapter.
  apply silent_bind; [auto with quiet|]. intros buffer.
  destruct (pdf_parse E) as [parse|parse|getText getInfo|keys]; intros w;
    cbv [bind ret throw snd legacy_adapter].
  1,2: destruct (parse buffer); reflexivity.
  - destruct (getText buffer); [destruct (getInfo buffer)|]; reflexivity.
  - reflexivity.
Qed.

Lemma silent_fileToBase64 p : silent (fileToBase64 E p).
Proof. unfold fileToBase64. auto with quiet. Qed.

Lemma silent_renderPdfPageToJpeg pdfPath pageNumber outputDir :
  silent (renderPdfPageToJpeg E pdfPath pageNumber outputDir).
Proof.
  unfold renderPdfPageToJpeg.
  repeat (apply silent_bind; [solve [auto with quiet]|]; intros ?).
  case_match; auto with quiet.
Qed.

Hint Resolve silent_extractPdfText silent_fileToBase64
  silent_renderPdfPageToJpeg : quiet.

Lemma silent_render_page file renderDir content pageNum :
  silent (render_page E file renderDir content pageNum).
Proof.
  unfold render_page. apply silent_try_catch; [|auto with quiet].
  repeat (apply silent_bind; [solve [auto with quiet]|]; intros ?).
  auto with quiet.
Qed.

Hint Resolve silent_render_page : quiet.

Lemma silent_visual_fallback canRender file pages content :
  silent (visual_fallback E canRender file pages content).
Proof.
  unfold visual_fallback. destruct canRender; simpl; [|auto with quiet].
  repeat (apply silent_bind; [solve [auto with quiet]|]; intros ?).
  auto with quiet.
Qed.

Hint Resolve silent_visual_fallback : quiet.

Lemma silent_process_file canRender acc file :
  silent (process_file E canRender acc file).
Proof.
  unfold process_file, process_pdf. repeat case_match; auto 10 with quiet.
  repeat (apply silent_bind; [solve [auto with quiet]|]; intros ?).
  apply silent_bind; [case_match; auto with quiet|]. auto with quiet.
Qed.

Hint Resolve silent_process_file : quiet.

Lemma silent_createContentWithFiles files message :
  silent (createContentWithFiles E files message).
Proof.
  unfold createContentWithFiles, isPdftoppmAvailable. auto 10 with quiet.
Qed.

End Silent.

(** ** The revise handler *)

Section Revise.

Variable E : Env.

(** The synthesis request of a revise call. *)
Lemma revise_try_run (b : ReviseBody) (w : World) :
  falsy (revisionRequest b) = false ->
  falsy (currentBreakdown b) = false ->
  api_key_configured E = true ->
  let messages :=
    default [] (conversationHistory b) ++
    [revision_turn (default [] (revisionRequest b))
                   (default [] (currentBreakdown b))] in
  let request := {| model := MODEL E; max_tokens := MAX_TOKENS;
                    system := SYSTEM_PROMPT; messages := messages |} in
  let w' := {| disk := disk w; api_log := api_log w ++ [request];
               clock := S (clock w) |} in
  revise_breakdown E b w
  = match anthropic E (clock w) request with
    | Some answer =>
        (Ret {| status := 200;
                body := BreakdownBody (first_text answer)
                          (messages ++ [assistant_turn (first_text answer)]) |},
         w')
    | None =>
        (Ret (error_response 500 (u "Failed to revise breakdown")), w')
    end.
Proof.
  intros Hr Hc Hk. unfold revise_breakdown, revise_try.
  rewrite Hr, Hc, Hk. cbn [orb negb].
  cbv [try_catch bind messages_create tick ret]. cbn [clock disk api_log].
  destruct (anthropic E (clock w) _); reflexivity.
Qed.

(** C9: the history a revise call returns is the history it was given
    followed by two turns, the revision request as a user turn and the
    revised breakdown as an assistant turn: two entries longer, and the
    same on the entries it was given. *)
Theorem revise_extends_history (b : ReviseBody) (H H' : list Turn)
    (revised : jsstring) (resp : Response) (w w' : World) :
  conversationHistory b = Some H ->
  revise_breakdown E b w = (Ret resp, w') ->
  body resp = BreakdownBody revised H' ->
  length H' = (length H + 2)%nat
  /\ take (length H) H' = H
  /\ H' = H ++ [revision_turn (default [] (revisionRequest b))
                              (default [] (currentBreakdown b));
                assistant_turn revised].
Proof.
  intros HH Hrun Hbody.
  assert (Hshape : H' = H ++ [revision_turn (default [] (revisionRequest b))
                                (default [] (currentBreakdown b));
                              assistant_turn revised]).
  { destruct (falsy (revisionRequest b)) eqn:Hr;
      [|destruct (falsy (currentBreakdown b)) eqn:Hc;
        [|destruct (api_key_configured E) eqn:Hk]].
    3: { rewrite revise_try_run in Hrun by assumption. rewrite HH in Hrun.
         simpl in Hrun. destruct (anthropic E (clock w) _);
           injection Hrun as <- _; simpl in Hbody; [|discriminate].
         injection Hbody as <- <-. rewrite <- app_assoc. reflexivity. }
    all: unfold revise_breakdown, revise_try, try_catch, ret in Hrun;
      rewrite ?Hr, ?Hc, ?Hk, ?orb_true_r in Hrun; simpl in Hrun;
      injection Hrun as <- _; discriminate. }
  subst H'. rewrite length_app, take_app_length. auto.
Qed.

(** C10: a revise call with a revision request and a current breakdown
    but no history (absent or [null]) goes through like one with an empty
    history: when the synthesis call is answered, the response carries
    exactly two turns, the new user turn and the new assistant turn. *)
Theorem revise_without_history (b : ReviseBody) (w : World)
    (answer : list ContentBlock) :
  conversationHistory b = None ->
  falsy (revisionRequest b) = false ->
  falsy (currentBreakdown b) = false ->
  api_key_configured E = true ->
  let turn := revision_turn (default [] (revisionRequest b))
                            (default [] (currentBreakdown b)) in
  anthropic E (clock w)
    {| model := MODEL E; max_tokens := MAX_TOKENS; system := SYSTEM_PROMPT;
       messages := [turn] |} = Some answer ->
  exists w',
    revise_breakdown E b w
    = (Ret {| status := 200;
              body := BreakdownBody (first_text answer)
                        [turn; assistant_turn (first_text answer)] |}, w').
Proof.
  intros HH Hr Hc Hk turn Hanswer.
  rewrite revise_try_run by assumption. rewrite HH. simpl default.
  fold turn. simpl app. rewrite Hanswer. eauto.
Qed.

End Revise.

Lemma revise_extends_history_witness :
  exists H',
    length H' = (length earlier_history + 2)%nat
    /\ take (length earlier_history) H' = earlier_history
    /\ H' = earlier_history
            ++ [revision_turn (u "add a second day") (u "SHOOT DAYS: 1");
                assistant_turn (u "SHOOT DAYS: 2")].
Proof.
  eexists.
  eapply (revise_extends_history studio_env revise_with_history
            earlier_history _ (u "SHOOT DAYS: 2") _ empty_world);
    [reflexivity | reflexivity | reflexivity].
Defined.

Lemma revise_without_history_witness :
  exists w',
    revise_breakdown studio_env revise_no_history empty_world
    = (Ret {| status := 200;
              body := BreakdownBody (u "SHOOT DAYS: 2")
                        [revision_turn (u "add a second day") (u "SHOOT DAYS: 1");
                         assistant_turn (u "SHOOT DAYS: 2")] |}, w').
Proof.
  apply (revise_without_history studio_env revise_no_history empty_world
           [TextBlock (u "SHOOT DAYS: 2")]); reflexivity.
Defined.

(** ** The generate handler *)

Section Generate.

Variable E : Env.

Lemma nonempty_length {T} (l : list T) : l <> [] -> (length l =? 0)%nat = false.
Proof. destruct l; [congruence | reflexivity]. Qed.

(** The handler once the assembly has returned: it synthesises, answers
    accordingly, and cleans up without a further request. *)
Lemma generate_after_assembly (files : list UploadedFile) (w w1 w2 : World)
    (asm : Assembly) (out : outcome jsstring) :
  files <> [] -> api_key_configured E = true ->
  createContentWithFiles E files (Some GENERATE_MESSAGE) w = (Ret asm, w1) ->
  synthesize E asm w1 = (out, w2) ->
  exists w3,
    generate_breakdown E (Some files) w = (Ret (generate_response asm out), w3)
    /\ api_log w3 = api_log w2.
Proof.
  intros Hne Hk Hasm Hsyn.
  pose proof (never_hangs_synthesize E asm w1) as Hnh. rewrite Hsyn in Hnh.
  destruct (cleanup_spec (map path files) w2) as (w3 & Hclean & _ & Hlog & _).
  exists w3. split; [|assumption].
  unfold generate_breakdown, generate_try. simpl default.
  rewrite (nonempty_length files Hne), Hk. cbn [negb].
  unfold finally, try_catch, bind at 1. rewrite Hasm.
  unfold bind at 1. rewrite Hsyn.
  destruct out as [breakdown|e|]; simpl in *; [| |congruence];
    unfold ret; rewrite Hclean; reflexivity.
Qed.

Lemma runSinglePass_log (content : list ContentBlock) (w : World) :
  api_log (runSinglePass E content w).2
  = api_log w ++ [synthesis_request E content].
Proof.
  cbv [runSinglePass bind messages_create tick ret]. cbn [clock disk api_log].
  destruct (anthropic E (clock w) _); reflexivity.
Qed.

(** C2, as the code has it: a request whose extracted PDF text is at most
    the multi-pass threshold long (so one character short of it, and
    exactly at it) is answered by one direct synthesis call on the
    assembled content, the only call of the whole request; only a request
    strictly above the threshold goes through the multi-pass summariser. *)
Theorem multipass_strictly_above_threshold (files : list UploadedFile)
    (w w1 : World) (asm : Assembly) :
  files <> [] -> api_key_configured E = true ->
  createContentWithFiles E files (Some GENERATE_MESSAGE) w = (Ret asm, w1) ->
  exists resp w3,
    generate_breakdown E (Some files) w = (Ret resp, w3)
    /\ (a_totalExtractedPdfChars asm <= MULTIPASS_THRESHOLD_CHARS ->
        resp = generate_response asm (runSinglePass E (a_content asm) w1).1
        /\ api_log w3 = api_log w ++ [synthesis_request E (a_content asm)])
    /\ (MULTIPASS_THRESHOLD_CHARS < a_totalExtractedPdfChars asm ->
        resp = generate_response asm
                 (runMultiPassBreakdown E (a_content asm) w1).1
        /\ api_log w3
           = api_log (runMultiPassBreakdown E (a_content asm) w1).2).
Proof.
  intros Hne Hk Hasm.
  destruct (synthesize E asm w1) as [out w2] eqn:Hsyn.
  destruct (generate_after_assembly files w w1 w2 asm out Hne Hk Hasm Hsyn)
    as (w3 & Hrun & Hlog).
  exists (generate_response asm out), w3. split; [assumption|].
  unfold synthesize in Hsyn.
  destruct (Z.gtb_spec (a_totalExtractedPdfChars asm) MULTIPASS_THRESHOLD_CHARS)
    as [Hgt|Hle].
  - split; [lia|]. intros _. rewrite Hsyn, Hlog. auto.
  - split; [|lia]. intros _. rewrite Hlog.
    pose proof (runSinglePass_log (a_content asm) w1) as Hsingle.
    pose proof (silent_createContentWithFiles E files
                  (Some GENERATE_MESSAGE) w) as Hquiet.
    rewrite Hasm in Hquiet. simpl in Hquiet.
    rewrite Hsyn in *. simpl in Hsingle. rewrite Hsingle, Hquiet. auto.
Qed.




End Generate.

(** ** Rendered pages *)

Section Rendered.

Variable E : Env.

Lemma startsWith_split (s p : jsstring) :
  JsString.startsWith s p = true -> s = p ++ drop (length p) s.
Proof.
  revert s. induction p as [|a p IH]; intros s; [reflexivity|].
  destruct s as [|b s]; [discriminate|]. simpl.
  intros [Hab Hrest]%andb_true_iff. apply N.eqb_eq in Hab as ->.
  f_equal. apply IH. assumption.
Qed.

Lemma entry_of_path (dir p name : jsstring) :
  entry_of dir p = Some name -> p = Path.join dir name.
Proof.
  unfold entry_of, Path.join.
  destruct (JsString.startsWith p (dir ++ [Path.slash])) eqn:Hpre; [|discriminate].
  case_bool_decide; [discriminate|]. intros [= <-].
  rewrite app_assoc. apply startsWith_split. assumption.
Qed.

Lemma insert_sorted_elem (x y : jsstring) (l : list jsstring) :
  y ∈ JsString.insert_sorted x l -> y = x \/ y ∈ l.
Proof.
  induction l as [|z l IH]; simpl.
  - intros ->%list_elem_of_singleton. auto.
  - destruct (JsString.leb x z).
    + intros [->|Hin]%elem_of_cons; auto.
    + intros [->|Hin]%elem_of_cons; [right; left|].
      destruct (IH Hin); [auto | right; right; assumption].
Qed.

Lemma sort_elem (y : jsstring) (l : list jsstring) :
  y ∈ JsString.sort l -> y ∈ l.
Proof.
  induction l as [|x l IH]; simpl; [done|].
  intros [->|Hin]%insert_sorted_elem; [left | right; auto].
Qed.

(** The path the renderer returns names a file that is on disk. *)
Lemma renderPdfPageToJpeg_on_disk pdfPath pageNumber outputDir
    (imagePath : jsstring) (w w1 : World) :
  renderPdfPageToJpeg E pdfPath pageNumber outputDir w = (Ret imagePath, w1) ->
  imagePath ∈ disk w1.
Proof.
  unfold renderPdfPageToJpeg.
  cbv [bind tick execFile_pdftoppm readdir ret throw].
  cbn [clock disk api_log].
  match goal with
  | |- context [pdftoppm E ?t ?args] =>
      destruct (pdftoppm E t args) as [created [|]]; [|discriminate]
  end.
  match goal with
  | |- context [JsString.sort ?l] =>
      assert (Hall : forall y, y ∈ JsString.sort l -> y ∈ l)
        by (intros y; apply sort_elem);
      destruct (JsString.sort l) as [|first rest]; [discriminate|];
      specialize (Hall first ltac:(left))
  end.
  intros [= <- <-]. simpl.
  apply list_elem_of_filter in Hall as [_ Hfirst].
  apply list_elem_of_omap in Hfirst as (p & Hp & Hentry).
  apply entry_of_path in Hentry as ->. apply elem_of_elements in Hp. exact Hp.
Qed.

(** The turn of the page loop when the rendered file cannot be read
    back: the page is skipped and the rendered file stays where it is. *)
Lemma render_page_leaves_unreadable_file file renderDir content pageNum
    (imagePath : jsstring) (e : JsError) (w w1 w2 : World) :
  renderPdfPageToJpeg E (path file) pageNum renderDir w = (Ret imagePath, w1) ->
  fileToBase64 E imagePath w1 = (Throw e, w2) ->
  render_page E file renderDir content pageNum w = (Ret content, w2)
  /\ imagePath ∈ disk w2.
Proof.
  intros Hrender Hread.
  split.
  - unfold render_page, try_catch, bind at 1. rewrite Hrender.
    unfold bind at 1. rewrite Hread. reflexivity.
  - apply renderPdfPageToJpeg_on_disk in Hrender.
    revert Hread. cbv [fileToBase64 readFile bind tick ret].
    cbn [clock disk api_log].
    destruct (bool_decide _); [destruct (file_contents E _ _)|]; simpl;
      intros Heq; simplify_eq; exact Hrender.
Qed.

End Rendered.

(** ** Sample requests, run *)




(** A request whose extracted PDF text is exactly
    [MULTIPASS_THRESHOLD_CHARS] long is answered by the one direct
    synthesis call: no notes request is made. *)
Lemma threshold_total_takes_single_pass :
  let assembly :=
    value_of (createContentWithFiles threshold_env [brief_pdf]
                (Some GENERATE_MESSAGE) brief_world).1 in
  let final := generate_breakdown threshold_env (Some [brief_pdf]) brief_world in
  a_totalExtractedPdfChars <$> assembly = Some MULTIPASS_THRESHOLD_CHARS
  /\ status <$> value_of final.1 = Some 200
  /\ Some (api_log final.2)
     = (fun asm => [synthesis_request threshold_env (a_content asm)])
         <$> assembly.
Proof. vm_compute. repeat split. Qed.

Lemma multipass_strictly_above_threshold_witness :
  exists asm w1 resp w3,
    createContentWithFiles studio_env [brief_pdf] (Some GENERATE_MESSAGE)
      brief_world = (Ret asm, w1)
    /\ generate_breakdown studio_env (Some [brief_pdf]) brief_world
       = (Ret resp, w3)
    /\ (a_totalExtractedPdfChars asm <= MULTIPASS_THRESHOLD_CHARS ->
        resp = generate_response asm
                 (runSinglePass studio_env (a_content asm) w1).1
        /\ api_log w3
           = api_log brief_world
             ++ [synthesis_request studio_env (a_content asm)])
    /\ (MULTIPASS_THRESHOLD_CHARS < a_totalExtractedPdfChars asm ->
        resp = generate_response asm
                 (runMultiPassBreakdown studio_env (a_content asm) w1).1
        /\ api_log w3
           = api_log (runMultiPassBreakdown studio_env (a_content asm) w1).2).
Proof.
  destruct (createContentWithFiles studio_env [brief_pdf]
              (Some GENERATE_MESSAGE) brief_world) as [[asm|e|] w1] eqn:Hasm;
    [|vm_compute in Hasm; discriminate..].
  destruct (multipass_strictly_above_threshold studio_env [brief_pdf]
              brief_world w1 asm) as (resp & w3 & Hrun & Hle & Hgt);
    [discriminate | reflexivity | assumption |].
  exists asm, w1, resp, w3. auto.
Defined.

(** C5, where the code falls short: when the rendered page cannot be read
    back, the turn of the page loop ends in its [catch] and the rendered
    file stays on disk after the request has been answered. *)
Theorem rendered_page_left_behind_when_unreadable :
  let final :=
    generate_breakdown unreadable_jpeg_env (Some [brief_pdf]) brief_world in
  status <$> value_of final.1 = Some 200
  /\ elements (disk final.2) = [rendered_page].
Proof. vm_compute. split; reflexivity. Qed.

(** The same request when the rendered page can be read: the rendered
    file is gone. *)
Lemma rendered_page_deleted_when_readable :
  let final := generate_breakdown scan_env (Some [brief_pdf]) brief_world in
  status <$> value_of final.1 = Some 200 /\ elements (disk final.2) = [].
Proof. vm_compute. split; reflexivity. Qed.

(** ** What the assembler emits *)

Section Assembled.

Variable E : Env.

Lemma extended_refl c : extended_by_summarised c c.
Proof. exists []. rewrite app_nil_r. auto. Qed.

Lemma extended_app c0 c added :
  extended_by_summarised c0 c -> Forall summarised added ->
  extended_by_summarised c0 (c ++ added).
Proof.
  intros (a & -> & Ha) Hadded. exists (a ++ added).
  rewrite app_assoc. split; [reflexivity|]. apply Forall_app; auto.
Qed.

Lemma extended_trans c0 c1 c2 :
  extended_by_summarised c0 c1 -> extended_by_summarised c1 c2 ->
  extended_by_summarised c0 c2.
Proof. intros H1 (a & -> & Ha). apply extended_app; assumption. Qed.

Lemma summarised_image media data : summarised (ImageBlock media data).
Proof. reflexivity. Qed.

(** Every marker the assembler writes opens with [=====]. *)
Lemma summarised_markers name i total chunk :
  summarised (image_heavy_notice name) /\ summarised (visual_header name)
  /\ summarised (visual_footer name) /\ summarised (no_text_block name)
  /\ summarised (chunk_block name i total chunk).
Proof. repeat split. Qed.

Lemma Forall_imap {T U} (P : U -> Prop) (f : nat -> T -> U) (l : list T) :
  (forall i x, P (f i x)) -> Forall P (imap f l).
Proof.
  revert f. induction l as [|x l IH]; intros f Hf; [constructor|].
  rewrite imap_cons. constructor; [apply Hf|]. apply IH. intros i y. apply Hf.
Qed.


Lemma summarised_chunk_blocks name chunks :
  Forall summarised (chunk_blocks name chunks).
Proof.
  unfold chunk_blocks. destruct chunks as [|c cs].
  - repeat constructor.
  - apply Forall_imap. intros i x. apply summarised_markers.
Qed.

Lemma render_page_extends file renderDir content pageNum :
  returns (render_page E file renderDir content pageNum)
    (extended_by_summarised content).
Proof.
  unfold render_page. apply returns_try_catch.
  - eapply returns_bind with (P := fun _ => True); [done|]. intros imagePath _.
    eapply returns_bind with (P := fun _ => True); [done|]. intros data _.
    eapply returns_bind with (P := fun _ => True); [done|]. intros _ _.
    apply returns_ret, extended_app; [apply extended_refl|].
    repeat constructor.
  - intros e. apply returns_ret, extended_refl.
Qed.

Lemma visual_fallback_extends canRender file pages content :
  returns (visual_fallback E canRender file pages content)
    (extended_by_summarised content).
Proof.
  unfold visual_fallback. destruct canRender; simpl.
  - eapply returns_bind with (P := fun _ => True); [done|]. intros sampled _.
    eapply returns_bind
      with (P := extended_by_summarised
                   (content ++ [visual_header (display_name file)])).
    + apply returns_for_of; [|apply extended_refl].
      intros acc pageNum Hacc. eapply returns_weaken;
        [apply render_page_extends|].
      intros c Hc. eapply extended_trans; eassumption.
    + intros content2 H2. apply returns_ret.
      apply extended_app; [|repeat constructor].
      eapply extended_trans; [|exact H2].
      apply extended_app; [apply extended_refl | repeat constructor].
  - apply returns_ret, extended_app; [apply extended_refl|].
    repeat constructor.
Qed.

Lemma process_file_extends canRender acc file :
  returns (process_file E canRender acc file)
    (fun acc' => extended_by_summarised (a_content acc) (a_content acc')).
Proof.
  unfold process_file. repeat case_match.
  - eapply returns_bind with (P := fun _ => True); [done|]. intros data _.
    apply returns_ret. simpl. apply extended_app; [apply extended_refl|].
    repeat constructor.
  - unfold process_pdf.
    eapply returns_bind with (P := fun _ => True); [done|]. intros parsed _.
    eapply returns_bind with (P := fun _ => True); [done|]. intros chunks _.
    eapply returns_bind with (P := extended_by_summarised (a_content acc)).
    + case_match; [apply visual_fallback_extends|].
      apply returns_ret, extended_refl.
    + intros content1 H1. apply returns_ret. simpl.
      apply extended_app; [assumption | apply summarised_chunk_blocks].
  - apply returns_ret, extended_refl.
Qed.

(** What the visual fallback adds is never nothing. *)
Lemma visual_fallback_adds canRender file pages content :
  returns (visual_fallback E canRender file pages content)
    (fun c => exists fallback, c = content ++ fallback /\ fallback <> []).
Proof.
  unfold visual_fallback. destruct canRender; simpl.
  - eapply returns_bind with (P := fun _ => True); [done|]. intros sampled _.
    eapply returns_bind; [apply returns_for_of
      with (I := extended_by_summarised
                   (content ++ [visual_header (display_name file)]));
      [|apply extended_refl]|].
    + intros c pageNum Hc. eapply returns_weaken; [apply render_page_extends|].
      intros c' Hc'. eapply extended_trans; eassumption.
    + intros c (added & -> & _). apply returns_ret.
      exists ([visual_header (display_name file)] ++ added
              ++ [visual_footer (display_name file)]).
      rewrite <- !app_assoc. split; [reflexivity | discriminate].
  - apply returns_ret. eexists. split; [reflexivity | discriminate].
Qed.

(** The flag at work: when the extraction of a PDF has returned, its
    branch of the loop adds the blocks of the visual fallback exactly
    when the flag is set, and then the blocks of the chunks. *)
Lemma process_pdf_blocks canRender acc file (parsed : Parsed)
    (acc' : Assembly) (w w0 w' : World) :
  extractPdfText E (path file) w = (Ret parsed, w0) ->
  process_pdf E canRender acc file w = (Ret acc', w') ->
  exists chunks fallback,
    chunkText (Some (text parsed)) PDF_TEXT_CHUNK_CHARS PDF_TEXT_CHUNK_OVERLAP
    = Some chunks
    /\ a_content acc'
       = a_content acc ++ fallback ++ chunk_blocks (display_name file) chunks
    /\ (fallback <> [] <->
        shouldRenderVisual (Z.of_nat (length (text parsed)))
          (default 0 (numpages parsed)) = true).
Proof.
  intros Hext Hrun. unfold process_pdf, bind at 1 in Hrun. rewrite Hext in Hrun.
  destruct (pdf_chunks_total (Some (text parsed))) as [chunks Hchunks].
  unfold bind at 1, terminating in Hrun. rewrite Hchunks in Hrun.
  exists chunks. revert Hrun. unfold bind at 1.
  destruct (shouldRenderVisual _ _) eqn:Hflag.
  - destruct (visual_fallback E canRender file _ (a_content acc) w0)
      as [[c|e|] w1] eqn:Hfb; try discriminate.
    apply visual_fallback_adds in Hfb as (fallback & -> & Hne).
    intros [= <- _]. exists fallback. simpl. rewrite <- app_assoc. tauto.
  - intros [= <- _]. exists []. simpl.
    split; [assumption|]. split; [reflexivity|].
    split; [congruence | discriminate].
Qed.

(** The content assembled for a generate request is the task prompt
    followed by blocks none of which the notes pass skips. *)
Lemma generate_content_shape files :
  returns (createContentWithFiles E files (Some GENERATE_MESSAGE))
    (fun asm => exists rest,
       a_content asm = TextBlock GENERATE_MESSAGE :: rest
       /\ Forall summarised rest).
Proof.
  unfold createContentWithFiles.
  eapply returns_bind with (P := fun _ => True); [done|]. intros canRender _.
  eapply returns_weaken.
  - apply (returns_for_of files (process_file E canRender)
             (fun acc => extended_by_summarised [TextBlock GENERATE_MESSAGE]
                           (a_content acc))).
    + intros acc f Hacc. eapply returns_weaken; [apply process_file_extends|].
      intros acc' Hacc'. eapply extended_trans; eassumption.
    + apply extended_refl.
  - intros asm (added & -> & Hadded). eauto.
Qed.

End Assembled.

(** ** The notes pass *)

Section NotesPass.

Variable E : Env.





End NotesPass.


(** ** The windows of the chunker *)

Section Windows.

Implicit Types (clean : jsstring) (chunks : list jsstring).

Lemma chunk_count_S (len W O s : Z) :
  0 <= O < W -> W < len - s ->
  chunk_count (len - s) W O = S (chunk_count (len - (s + (W - O))) W O).
Proof.
  intros HO Hlong. unfold chunk_count.
  destruct (Z.leb_spec (len - s) W); [lia|].
  set (step := W - O). assert (0 < step) by (unfold step; lia).
  destruct (Z.leb_spec (len - (s + step)) W) as [Hlast|Hmore].
  - f_equal.
    assert ((len - s - W + step - 1) / step = 1) as ->; [|reflexivity].
    symmetry. apply Z.div_unique with (r := len - s - W - 1); lia.
  - f_equal.
    replace (len - s - W + step - 1)
      with ((len - (s + step) - W + step - 1) + 1 * step) by lia.
    rewrite Z.div_add by lia.
    assert (0 <= (len - (s + step) - W + step - 1) / step)
      by (apply Z.div_pos; lia).
    lia.
Qed.

Lemma map_seq_S {T} (f : nat -> T) (k n : nat) :
  map f (seq k (S n)) = f k :: map f (seq (S k) n).
Proof. reflexivity. Qed.

(** From the start of window [k] on, the loop pushes the windows [k],
    [k + 1], ... up to the one that reaches the end of the text. *)
Lemma chunk_loop_windows clean (W O : Z) :
  0 <= O < W ->
  forall (fuel k : nat) chunks,
    let s := Z.of_nat k * (W - O) in
    s < Z.of_nat (length clean) ->
    Z.of_nat (length clean) - s < Z.of_nat fuel ->
    chunk_loop fuel clean W O s chunks
    = Some (chunks ++ map (chunk_window clean W O)
                        (seq k (chunk_count (Z.of_nat (length clean) - s) W O))).
Proof.
  intros HO. induction fuel as [|fuel IH]; intros k chunks s Hs Hfuel; [lia|].
  assert (0 <= s) by (unfold s; nia).
  cbn [chunk_loop]. destruct (Z.ltb_spec s (Z.of_nat (length clean))); [|lia].
  assert (Hslice : JsString.slice clean s
                     (Z.min (s + W) (Z.of_nat (length clean)))
                   = chunk_window clean W O k).
  { rewrite slice_in_range by lia. unfold chunk_window. fold s.
    destruct (Z.le_gt_cases (s + W) (Z.of_nat (length clean))).
    - rewrite Z.min_l by lia. f_equal. lia.
    - rewrite Z.min_r by lia. rewrite !take_ge; [reflexivity|..];
        rewrite length_drop; lia. }
  rewrite Hslice.
  destruct (Z.geb_spec (Z.min (s + W) (Z.of_nat (length clean)))
              (Z.of_nat (length clean))) as [Hge|Hlt].
  - unfold chunk_count.
    destruct (Z.leb_spec (Z.of_nat (length clean) - s) W); [|lia].
    reflexivity.
  - rewrite Z.min_l, Z.max_r by lia.
    replace (s + W - O) with (Z.of_nat (S k) * (W - O)) by (unfold s; lia).
    rewrite IH by (fold s; lia).
    rewrite (chunk_count_S _ W O s) by lia.
    rewrite map_seq_S, <- app_assoc.
    replace (Z.of_nat (S k) * (W - O)) with (s + (W - O)) by (unfold s; lia).
    reflexivity.
Qed.

(** Window [k + 1] is pushed exactly when window [k] stops short of the
    end of the text. *)
Lemma chunk_count_next (len W O : Z) (k : nat) :
  0 <= O < W -> 0 < len ->
  (S k < chunk_count len W O)%nat <-> Z.of_nat k * (W - O) + W < len.
Proof.
  intros HO Hlen. unfold chunk_count.
  set (step := W - O). assert (Hstep : 0 < step) by (unfold step; lia).
  destruct (Z.leb_spec len W) as [Hshort|Hlong].
  - split; [lia | nia].
  - set (d := len - W + step - 1).
    assert (Hd : 0 <= d / step) by (apply Z.div_pos; lia).
    pose proof (Z.mul_div_le d step Hstep) as Hlow.
    pose proof (Z.mul_succ_div_gt d step Hstep) as Hup.
    split; intros Hk.
    + assert (Z.of_nat k < d / step) by lia. unfold d in *. nia.
    + assert (Z.of_nat k + 1 <= d / step); [|lia].
      apply Z.div_le_lower_bound; [lia | unfold d; nia].
Qed.

Lemma chunk_window_length clean (W O : Z) (k : nat) :
  0 <= O < W -> Z.of_nat k * (W - O) <= Z.of_nat (length clean) ->
  Z.of_nat (length (chunk_window clean W O k))
  = Z.min W (Z.of_nat (length clean) - Z.of_nat k * (W - O)).
Proof.
  intros HO Hk. unfold chunk_window. rewrite length_take, length_drop. nia.
Qed.

(** X1: for a window [W] and an overlap [O] with [0 <= O < W], the chunks
    of a text that is not blank are the windows of [W] characters that
    start every [W - O] characters of the normalised text, up to the first
    window that reaches its end.  So no chunk is empty or longer than [W],
    every chunk but the last is exactly [W] long, and each chunk starts
    with the last [O] characters of the one before it. *)
Theorem chunkText_windows (T : jsstring) (W O : Z) :
  0 <= O < W ->
  let clean := JsString.replace_crlf T in
  JsString.trim clean <> [] ->
  exists chunks,
    chunkText (Some T) W O = Some chunks
    /\ chunks = map (chunk_window clean W O)
                  (seq 0 (chunk_count (Z.of_nat (length clean)) W O))
    /\ Forall (fun c => 0 < Z.of_nat (length c) <= W) chunks
    /\ (forall (k : nat) c d,
          chunks !! k = Some c -> chunks !! S k = Some d ->
          Z.of_nat (length c) = W
          /\ drop (Z.to_nat (W - O)) c = take (Z.to_nat O) d).
Proof.
  intros HO clean Hne.
  assert (Hlen : 0 < Z.of_nat (length clean)).
  { apply trim_nonempty in Hne. destruct clean; [congruence | simpl; lia]. }
  set (n := chunk_count (Z.of_nat (length clean)) W O).
  assert (Hin : forall k : nat, (k < n)%nat ->
            Z.of_nat k * (W - O) < Z.of_nat (length clean)).
  { intros [|k] Hk; [lia|].
    apply (chunk_count_next _ W O k HO Hlen) in Hk. lia. }
  exists (map (chunk_window clean W O) (seq 0 n)).
  split; [|split; [reflexivity|split]].
  - unfold chunkText. simpl default. fold clean.
    destruct (JsString.truthy (JsString.trim clean)) eqn:Ht;
      [|apply truthy_false in Ht; congruence].
    cbn [negb].
    pose proof (chunk_loop_windows clean W O HO (S (length clean)) 0 [])
      as Hloop.
    cbn zeta in Hloop. change (Z.of_nat 0 * (W - O)) with 0 in Hloop.
    rewrite Hloop by lia. rewrite Z.sub_0_r. reflexivity.
  - apply Forall_forall. intros c (k & -> & Hk%elem_of_seq)%list_elem_of_fmap.
    specialize (Hin k ltac:(lia)).
    rewrite chunk_window_length by lia. lia.
  - intros k c d Hc Hd.
    rewrite list_lookup_fmap in Hc, Hd.
    destruct (seq 0 n !! k) as [k'|] eqn:Hk; [|discriminate].
    destruct (seq 0 n !! S k) as [k''|] eqn:Hk'; [|discriminate].
    apply lookup_seq in Hk as [-> Hk], Hk' as [-> Hk'].
    simpl in Hc, Hd. injection Hc as <-. injection Hd as <-.
    apply (chunk_count_next _ W O k HO Hlen) in Hk'.
    split; [rewrite chunk_window_length by nia; lia|].
    unfold chunk_window.
    replace (Z.to_nat W) with (Z.to_nat (W - O) + Z.to_nat O)%nat at 1 by lia.
    rewrite <- take_drop_commute, drop_drop, take_take.
    rewrite Nat.min_l by lia.
    replace (Z.to_nat (Z.of_nat k * (W - O)) + Z.to_nat (W - O))%nat
      with (Z.to_nat (Z.of_nat (S k) * (W - O))) by nia.
    reflexivity.
Qed.

Lemma chunkText_windows_witness :
  let T := u "storyboard, 12 frames" in
  exists chunks,
    chunkText (Some T) 8 3 = Some chunks
    /\ chunks = map (chunk_window (JsString.replace_crlf T) 8 3)
                  (seq 0 (chunk_count
                            (Z.of_nat (length (JsString.replace_crlf T))) 8 3))
    /\ Forall (fun c => 0 < Z.of_nat (length c) <= 8) chunks
    /\ (forall (k : nat) c d,
          chunks !! k = Some c -> chunks !! S k = Some d ->
          Z.of_nat (length c) = 8
          /\ drop (Z.to_nat (8 - 3)) c = take (Z.to_nat 3) d).
Proof. apply (chunkText_windows _ 8 3); [lia | discriminate]. Defined.

(** X2: a text that is not blank and fits in one window comes back as a
    single chunk, the normalised text itself, whatever the overlap. *)
Theorem chunkText_single_chunk (T : jsstring) (W O : Z) :
  let clean := JsString.replace_crlf T in
  JsString.trim clean <> [] ->
  Z.of_nat (length clean) <= W ->
  chunkText (Some T) W O = Some [clean].
Proof.
  intros clean Hne Hfit.
  assert (Hlen : 0 < Z.of_nat (length clean)).
  { apply trim_nonempty in Hne. destruct clean; [congruence | simpl; lia]. }
  unfold chunkText. simpl default. fold clean.
  destruct (JsString.truthy (JsString.trim clean)) eqn:Ht;
    [|apply truthy_false in Ht; congruence].
  cbn [negb chunk_loop].
  destruct (Z.ltb_spec 0 (Z.of_nat (length clean))); [|lia].
  rewrite Z.add_0_l, Z.min_r by lia.
  destruct (Z.geb_spec (Z.of_nat (length clean)) (Z.of_nat (length clean)));
    [|lia].
  rewrite slice_in_range by lia. simpl. rewrite Z.sub_0_r, Nat2Z.id, drop_0.
  rewrite take_ge by lia. reflexivity.
Qed.

Lemma chunkText_single_chunk_witness :
  chunkText (Some (u "call sheet")) 10 600 = Some [u "call sheet"].
Proof.
  apply (chunkText_single_chunk (u "call sheet") 10 600);
    [discriminate | simpl; lia].
Defined.

End Windows.

(** ** Names and extensions *)

Section MediaTypes.

Implicit Types (s a b : jsstring) (c : N).

Lemma take_until_app c a b :
  c ∉ a -> JsString.take_until c (a ++ b) = a ++ JsString.take_until c b.
Proof.
  induction a as [|x a IH]; intros Hc; [reflexivity|]. simpl.
  destruct (N.eqb_spec x c) as [->|_]; [exfalso; apply Hc; left|].
  f_equal. apply IH. intros Hin. apply Hc. right. assumption.
Qed.

Lemma take_until_all c a : c ∉ a -> JsString.take_until c a = a.
Proof.
  intros Hc. rewrite <- (app_nil_r a) at 1.
  rewrite take_until_app by assumption. simpl. apply app_nil_r.
Qed.

Lemma drop_all_keeps c s : head s <> Some c -> JsString.drop_all c s = s.
Proof.
  destruct s as [|x s]; [reflexivity|]. simpl. intros Hx.
  destruct (N.eqb_spec x c) as [->|_]; [congruence | reflexivity].
Qed.

Lemma take_until_nonempty c s :
  s <> [] -> head s <> Some c -> JsString.take_until c s <> [].
Proof.
  destruct s as [|x s]; [congruence|]. simpl. intros _ Hx.
  destruct (N.eqb_spec x c) as [->|_]; [congruence | discriminate].
Qed.

(** [path.extname] of a name that ends in a dot and an extension. *)
Lemma extname_of_extension (stem ext : jsstring) :
  stem <> [] -> last stem <> Some Path.slash ->
  ext <> [] -> Path.slash ∉ ext -> Path.dot ∉ ext ->
  Path.extname (stem ++ [Path.dot] ++ ext) = Path.dot :: ext.
Proof.
  intros Hstem Hlast Hext Hslash Hdot.
  set (t := JsString.take_until Path.slash (reverse stem)).
  assert (Ht : t <> []).
  { apply take_until_nonempty.
    - intros Hnil. apply Hstem. rewrite <- (reverse_involutive stem), Hnil.
      reflexivity.
    - rewrite head_reverse. assumption. }
  assert (Hcomp : Path.basename (stem ++ [Path.dot] ++ ext)
                  = reverse t ++ [Path.dot] ++ ext).
  { unfold Path.basename. rewrite !reverse_app, reverse_singleton.
    rewrite drop_all_keeps.
    2: { rewrite <- app_assoc, head_app. rewrite head_reverse.
         destruct (last ext) as [x|] eqn:Hx.
         - intros [= ->]. apply Hslash, last_Some_elem_of. assumption.
         - apply last_None in Hx. congruence. }
    rewrite <- app_assoc, take_until_app
      by (rewrite elem_of_reverse; assumption).
    simpl. fold t. rewrite reverse_app, reverse_involutive, reverse_cons.
    rewrite <- app_assoc. reflexivity. }
  assert (Hafter : JsString.take_until Path.dot
                     (reverse (reverse t ++ [Path.dot] ++ ext))
                   = reverse ext).
  { rewrite !reverse_app, reverse_involutive, reverse_singleton.
    rewrite <- app_assoc, take_until_app
      by (rewrite elem_of_reverse; assumption).
    simpl. apply app_nil_r. }
  assert (Hlen : length (reverse t ++ [Path.dot] ++ ext)
                 = (length t + S (length ext))%nat).
  { rewrite !length_app, length_reverse. reflexivity. }
  assert (0 < length t)%nat by (destruct t; [congruence | simpl; lia]).
  unfold Path.extname. rewrite Hcomp, Hafter, Hlen, length_reverse.
  destruct (Nat.eqb_spec (length ext) (length t + S (length ext))); [lia|].
  destruct (Nat.eqb_spec (S (length ext)) (length t + S (length ext))); [lia|].
  rewrite bool_decide_eq_false_2.
  - rewrite reverse_involutive. reflexivity.
  - intros Heq. apply (f_equal length) in Heq. rewrite Hlen in Heq.
    destruct ext; [congruence | simpl in Heq; lia].
Qed.

(** X3: the media type of a file is read off its extension alone, letter
    case aside: whatever comes before the last dot of the name plays no
    part. *)
Theorem media_type_by_extension (stem ext : jsstring) :
  stem <> [] -> last stem <> Some Path.slash ->
  ext <> [] -> Path.slash ∉ ext -> Path.dot ∉ ext ->
  getMediaType (stem ++ [Path.dot] ++ ext)
  = default (u "application/octet-stream")
      (assoc (Path.dot :: JsString.toLowerCase ext) media_types).
Proof.
  intros Hstem Hlast Hext Hslash Hdot. unfold getMediaType.
  rewrite extname_of_extension by assumption. reflexivity.
Qed.

Lemma media_type_by_extension_witness :
  getMediaType (u "Call Sheet v2" ++ [Path.dot] ++ u "PDF")
  = default (u "application/octet-stream")
      (assoc (Path.dot :: JsString.toLowerCase (u "PDF")) media_types).
Proof.
  apply media_type_by_extension;
    [discriminate | discriminate | discriminate | |];
    intros Hin; repeat (apply elem_of_cons in Hin as [Hin|Hin]; [discriminate|]);
    inversion Hin.
Defined.

End MediaTypes.

(** ** Extracted text *)

Section Trimmed.

Implicit Types (s : jsstring) (c : N).
Variable E : Env.

Lemma trim_start_head s c :
  head (JsString.trim_start s) = Some c -> JsString.is_space c = false.
Proof.
  induction s as [|x s IH]; [discriminate|]. simpl.
  destruct (JsString.is_space x) eqn:Hx; [assumption|].
  intros [= <-]. assumption.
Qed.

Lemma trim_start_suffix s : exists pre, s = pre ++ JsString.trim_start s.
Proof.
  induction s as [|x s [pre IH]]; [exists []; reflexivity|]. simpl.
  destruct (JsString.is_space x).
  - exists (x :: pre). simpl. f_equal. assumption.
  - exists []. reflexivity.
Qed.

Lemma trim_start_nil s :
  JsString.trim_start s = [] <-> Forall (fun c => JsString.is_space c = true) s.
Proof.
  induction s as [|x s IH]; simpl; [split; auto|].
  destruct (JsString.is_space x) eqn:Hx.
  - rewrite IH. split; [constructor; assumption | inversion 1; assumption].
  - split; [discriminate | inversion 1; congruence].
Qed.

Lemma trim_nil s :
  JsString.trim s = [] <-> Forall (fun c => JsString.is_space c = true) s.
Proof.
  unfold JsString.trim. split.
  - intros Hnil. apply (f_equal reverse) in Hnil.
    rewrite reverse_involutive, reverse_nil in Hnil.
    apply trim_start_nil in Hnil.
    destruct (trim_start_suffix s) as [pre Hs].
    destruct (JsString.trim_start s) as [|x rest] eqn:Hts.
    + apply trim_start_nil. assumption.
    + exfalso. pose proof (trim_start_head s x) as Hx. rewrite Hts in Hx.
      specialize (Hx eq_refl).
      rewrite Forall_forall in Hnil.
      rewrite (Hnil x) in Hx; [discriminate|].
      rewrite elem_of_reverse. left.
  - intros Hs. apply trim_start_nil in Hs. rewrite Hs. reflexivity.
Qed.

(** What [trim] returns neither starts nor ends with white space. *)
Lemma trim_ends s c :
  head (JsString.trim s) = Some c \/ last (JsString.trim s) = Some c ->
  JsString.is_space c = false.
Proof.
  unfold JsString.trim.
  set (a := JsString.trim_start s).
  set (b := JsString.trim_start (reverse a)).
  rewrite head_reverse, last_reverse. intros [Hlast|Hhead].
  - destruct (trim_start_suffix (reverse a)) as [pre Hpre]. fold b in Hpre.
    assert (Hb : last (reverse a) = Some c).
    { rewrite Hpre. destruct b as [|x b']; [discriminate|].
      rewrite last_app_cons. assumption. }
    rewrite last_reverse in Hb. eapply trim_start_head. exact Hb.
  - eapply trim_start_head. exact Hhead.
Qed.

Lemma extractPdfText_trim (p : jsstring) (parsed : Parsed) (w w' : World) :
  extractPdfText E p w = (Ret parsed, w') ->
  exists raw, text parsed = JsString.trim raw.
Proof.
  unfold extractPdfText, getPdfParseAdapter, bind at 1.
  destruct (readFile E p w) as [[buffer|e|] w1]; try discriminate.
  destruct (pdf_parse E) as [parse|parse|getText getInfo|keys];
    cbv [bind ret throw legacy_adapter].
  1,2: destruct (parse buffer) as [raw|]; [|discriminate];
       intros [= <- _]; eauto.
  - destruct (getText buffer) as [raw|]; [|discriminate].
    destruct (getInfo buffer); [|discriminate]. intros [= <- _]. eauto.
  - discriminate.
Qed.

(** X4: whatever the shape of the [pdf-parse] module, the text an
    extraction returns neither starts nor ends with white space. *)
Theorem extracted_text_is_trimmed (p : jsstring) (parsed : Parsed)
    (w w' : World) :
  extractPdfText E p w = (Ret parsed, w') ->
  forall c, head (text parsed) = Some c \/ last (text parsed) = Some c ->
            JsString.is_space c = false.
Proof.
  intros [raw ->]%extractPdfText_trim c. apply trim_ends.
Qed.



End Trimmed.

Lemma extracted_text_is_trimmed_witness :
  exists parsed w',
    extractPdfText padded_env (path brief_pdf) brief_world = (Ret parsed, w')
    /\ text parsed = u "1 shoot day"
    /\ forall c, head (text parsed) = Some c \/ last (text parsed) = Some c ->
                 JsString.is_space c = false.
Proof.
  eexists _, _. split; [vm_compute; reflexivity|]. split; [reflexivity|].
  eapply (extracted_text_is_trimmed padded_env (path brief_pdf) _ brief_world).
  vm_compute. reflexivity.
Defined.


(** ** How far the sampled pages reach *)

Section Coverage.

Lemma page_steps_length first step count :
  length (page_steps first step count) = count.
Proof. unfold page_steps. rewrite length_map, length_seq. reflexivity. Qed.

Lemma page_steps_last first step count :
  last (page_steps first step (S count)) = Some (first + Z.of_nat count * step).
Proof.
  unfold page_steps. rewrite seq_S, map_app. simpl. apply last_snoc.
Qed.

(** From 20 pages on the interval is a fifth of the document, which
    gives five or six sampled pages. *)
Lemma long_document_count (pages : Z) :
  20 <= pages ->
  sample_interval pages = pages / 5
  /\ 4 <= (pages - 1) / sample_interval pages <= 5.
Proof.
  intros Hp. unfold sample_interval.
  assert (4 <= pages / 5) by (apply Z.div_le_lower_bound; lia).
  pose proof (Z.mul_div_le pages 5 ltac:(lia)).
  pose proof (Z.mul_succ_div_gt pages 5 ltac:(lia)).
  rewrite Z.max_r by lia. split; [reflexivity|]. split.
  - apply Z.div_le_lower_bound; lia.
  - assert ((pages - 1) / (pages / 5) < 6); [|lia].
    apply Z.div_lt_upper_bound; lia.
Qed.

Lemma capped_of_steps (pages : Z) :
  0 < pages ->
  let sampled := page_steps 1 (sample_interval pages)
                   (S (Z.to_nat ((pages - 1) / sample_interval pages))) in
  samplePages pages = Some sampled
  /\ uniquePages pages sampled = sampled
  /\ cappedPages pages sampled
     = take (Z.to_nat VISUAL_RENDER_MAX_PAGES) sampled.
Proof.
  intros Hp sampled. split; [apply samplePages_steps; assumption|].
  pose proof (uniquePages_steps pages Hp) as Hu. cbv zeta in Hu.
  fold sampled in Hu. split; [assumption|].
  unfold cappedPages. rewrite Hu. apply slice_from_start. done.
Qed.

(** X6: on a document of 20 pages or more the cap on rendered pages drops
    nothing: all five or six sampled pages are rendered, and the last of
    them lies less than one interval before the end of the document. *)
Theorem long_documents_are_sampled_to_the_end (pages : Z) :
  20 <= pages ->
  exists sampled,
    samplePages pages = Some sampled
    /\ cappedPages pages sampled = uniquePages pages sampled
    /\ (5 <= length (cappedPages pages sampled) <= 6)%nat
    /\ exists p, last (cappedPages pages sampled) = Some p
                 /\ pages - sample_interval pages < p <= pages.
Proof.
  intros Hp.
  destruct (long_document_count pages Hp) as [Hi Hn].
  destruct (capped_of_steps pages ltac:(lia)) as (Hs & Hu & Hc).
  set (i := sample_interval pages) in *.
  set (n := Z.to_nat ((pages - 1) / i)) in *.
  assert (4 <= i) by (rewrite Hi; apply Z.div_le_lower_bound; lia).
  eexists. split; [exact Hs|]. rewrite Hu, Hc.
  rewrite take_ge by (rewrite page_steps_length;
                      unfold VISUAL_RENDER_MAX_PAGES; lia).
  split; [reflexivity|]. rewrite page_steps_length.
  split; [lia|]. rewrite page_steps_last. eexists. split; [reflexivity|].
  pose proof (Z.mul_div_le (pages - 1) i ltac:(lia)).
  pose proof (Z.mul_succ_div_gt (pages - 1) i ltac:(lia)).
  unfold n. nia.
Qed.

Lemma long_documents_are_sampled_to_the_end_witness :
  exists sampled,
    samplePages 47 = Some sampled
    /\ cappedPages 47 sampled = uniquePages 47 sampled
    /\ (5 <= length (cappedPages 47 sampled) <= 6)%nat
    /\ exists p, last (cappedPages 47 sampled) = Some p
                 /\ 47 - sample_interval 47 < p <= 47.
Proof. apply (long_documents_are_sampled_to_the_end 47). lia. Defined.

(** X7: the cap on rendered pages drops a sampled page for documents of
    13, 14 and 19 pages and for no other document. *)
Theorem cap_drops_pages_only_at_13_14_19 (pages : Z) :
  0 < pages ->
  exists sampled,
    samplePages pages = Some sampled
    /\ (cappedPages pages sampled <> uniquePages pages sampled
        <-> pages = 13 \/ pages = 14 \/ pages = 19).
Proof.
  intros Hp. destruct (Z.le_gt_cases 20 pages) as [Hlong|Hshort].
  - destruct (long_document_count pages Hlong) as [Hi Hn].
    destruct (capped_of_steps pages Hp) as (Hs & Hu & Hc).
    eexists. split; [exact Hs|]. rewrite Hu, Hc.
    rewrite take_ge by (rewrite page_steps_length;
                        unfold VISUAL_RENDER_MAX_PAGES; lia).
    split; [congruence | lia].
  - assert (Hcases : pages ∈ Z.of_nat <$> seq 1 19).
    { apply list_elem_of_fmap. exists (Z.to_nat pages).
      split; [lia | apply elem_of_seq; lia]. }
    simpl in Hcases.
    repeat (apply elem_of_cons in Hcases as [->|Hcases];
            [eexists; split; [reflexivity|];
             (split; [intros Hne; first [lia | exfalso; apply Hne; reflexivity]
                     | intros Hor; first [lia | discriminate]])|]).
    inversion Hcases.
Qed.

Lemma cap_drops_pages_only_at_13_14_19_witness :
  exists sampled,
    samplePages 14 = Some sampled
    /\ (cappedPages 14 sampled <> uniquePages 14 sampled
        <-> 14 = 13 \/ 14 = 14 \/ 14 = 19).
Proof. apply (cap_drops_pages_only_at_13_14_19 14). lia. Defined.

End Coverage.

(** ** What the assembler keeps count of *)

Section Accounting.

Variable E : Env.

Lemma for_of_app {A S} (l1 l2 : list A) (body : S -> A -> M S) (acc : S)
    (w : World) :
  for_of (l1 ++ l2) body acc w
  = bind (for_of l1 body acc) (for_of l2 body) w.
Proof.
  revert acc w. induction l1 as [|x l1 IH]; intros acc w; [reflexivity|].
  simpl. unfold bind. destruct (body acc x w) as [[acc1|e|] w1].
  - rewrite IH. reflexivity.
  - reflexivity.
  - reflexivity.
Qed.

Lemma is_pdf_file_spec (f : UploadedFile) :
  is_pdf_file f = true
  <-> getMediaType (display_name f) = u "application/pdf".
Proof.
  unfold is_pdf_file, is_image_file. split.
  - intros [_ H]%andb_true_iff. apply bool_decide_eq_true in H. assumption.
  - intros ->. reflexivity.
Qed.

(** One turn of the loop over the files, as far as the diagnostics and
    the total go: a PDF adds one entry, under its own name, and the
    length of its text; any other file adds nothing. *)
Lemma process_file_accounting canRender acc file :
  returns (process_file E canRender acc file)
    (fun acc' =>
       if is_pdf_file file then
         exists d, a_pdfDiagnostics acc' = a_pdfDiagnostics acc ++ [d]
                   /\ d_filename d = display_name file
                   /\ 0 <= d_textLength d
                   /\ a_totalExtractedPdfChars acc'
                      = a_totalExtractedPdfChars acc + d_textLength d
       else a_pdfDiagnostics acc' = a_pdfDiagnostics acc
            /\ a_totalExtractedPdfChars acc' = a_totalExtractedPdfChars acc).
Proof.
  unfold process_file, is_pdf_file, is_image_file.
  destruct (JsString.startsWith _ _); simpl.
  - eapply returns_bind with (P := fun _ => True); [done|]. intros data _.
    apply returns_ret. auto.
  - case_bool_decide; simpl.
    + unfold process_pdf.
      eapply returns_bind with (P := fun _ => True); [done|]. intros parsed _.
      eapply returns_bind with (P := fun _ => True); [done|]. intros chunks _.
      eapply returns_bind with (P := fun _ => True); [done|]. intros c1 _.
      apply returns_ret. eexists. simpl.
      split; [reflexivity|]. split; [reflexivity|].
      split; [simpl; lia | reflexivity].
    + apply returns_ret. auto.
Qed.

(** The loop over the files, from any accumulator on. *)
Lemma for_of_accounting canRender (files : list UploadedFile) :
  forall acc acc' w w',
    for_of files (process_file E canRender) acc w = (Ret acc', w') ->
    exists new,
      a_pdfDiagnostics acc' = a_pdfDiagnostics acc ++ new
      /\ d_filename <$> new = display_name <$> filter is_pdf_file files
      /\ Forall (fun d => 0 <= d_textLength d) new
      /\ a_totalExtractedPdfChars acc'
         = a_totalExtractedPdfChars acc + sum_Z (d_textLength <$> new).
Proof.
  induction files as [|f files IH]; intros acc acc' w w' Hrun.
  - injection Hrun as <- _. exists []. rewrite app_nil_r. simpl.
    repeat split; [constructor | lia].
  - cbn [for_of] in Hrun. unfold bind at 1 in Hrun.
    destruct (process_file E canRender acc f w) as [[acc1|e|] w1] eqn:Hstep;
      try discriminate.
    apply process_file_accounting in Hstep.
    apply IH in Hrun as (new & Hd & Hn & Hpos & Ht).
    destruct (is_pdf_file f) eqn:Hpdf.
    + destruct Hstep as (d & Hd1 & Hname & Hlen & Ht1).
      exists (d :: new). rewrite Hd, Hd1, <- app_assoc.
      rewrite filter_cons_True by (rewrite Hpdf; done).
      rewrite !fmap_cons, Hname, Hn, Ht, Ht1.
      split; [reflexivity|]. split; [reflexivity|].
      split; [constructor; assumption | simpl; lia].
    + destruct Hstep as [Hd1 Ht1]. exists new. rewrite Hd, Hd1, Ht, Ht1.
      rewrite filter_cons_False by (rewrite Hpdf; simpl; tauto).
      repeat split; assumption.
Qed.

(** X8: when the assembler returns, there is one diagnostics entry per
    PDF of the request, in upload order and under the name of its file,
    and the total is the sum of their text lengths: images and files of
    other types count for nothing. *)
Theorem diagnostics_account_for_every_pdf (files : list UploadedFile)
    (message : option jsstring) (asm : Assembly) (w w' : World) :
  createContentWithFiles E files message w = (Ret asm, w') ->
  d_filename <$> a_pdfDiagnostics asm
  = display_name <$> filter is_pdf_file files
  /\ Forall (fun d => 0 <= d_textLength d) (a_pdfDiagnostics asm)
  /\ a_totalExtractedPdfChars asm
     = sum_Z (d_textLength <$> a_pdfDiagnostics asm).
Proof.
  unfold createContentWithFiles, bind at 1.
  destruct (isPdftoppmAvailable E w) as [[canRender|e|] w1]; try discriminate.
  intros (new & Hd & Hn & Hpos & Ht)%for_of_accounting.
  simpl in Hd, Ht. subst new. auto.
Qed.

(** A file that is neither an image nor a PDF is passed over without a
    trace. *)
Lemma process_file_unsupported canRender acc file :
  is_supported_file file = false ->
  process_file E canRender acc file = ret acc.
Proof.
  unfold is_supported_file, is_pdf_file, is_image_file, process_file.
  destruct (JsString.startsWith _ _); [discriminate|]. simpl.
  case_bool_decide; [discriminate | reflexivity].
Qed.

(** X9: files that are neither images nor PDFs are left out as if they had
    not been uploaded: the assembler does exactly what it does on the
    request without them. *)
Theorem unsupported_files_are_ignored (files : list UploadedFile)
    (message : option jsstring) (w : World) :
  createContentWithFiles E files message w
  = createContentWithFiles E (filter is_supported_file files) message w.
Proof.
  unfold createContentWithFiles, bind.
  destruct (isPdftoppmAvailable E w) as [[canRender|e|] w1]; try reflexivity.
  generalize {| a_content :=
                  match message with
                  | Some m => if JsString.truthy m then [TextBlock m] else []
                  | None => []
                  end;
                a_pdfDiagnostics := []; a_totalExtractedPdfChars := 0 |}.
  revert w1. induction files as [|f files IH]; intros w1 acc; [reflexivity|].
  destruct (is_supported_file f) eqn:Hf.
  - rewrite filter_cons_True by (rewrite Hf; done). cbn [for_of].
    unfold bind. destruct (process_file E canRender acc f w1) as [[a|e|] w2];
      [apply IH | reflexivity | reflexivity].
  - rewrite filter_cons_False by (rewrite Hf; simpl; tauto). cbn [for_of].
    rewrite process_file_unsupported by assumption. apply IH.
Qed.

Lemma grown_refl acc : grown_from acc acc.
Proof. repeat split; reflexivity || lia. Qed.

Lemma grown_trans a b c : grown_from a b -> grown_from b c -> grown_from a c.
Proof.
  intros (H1 & H2 & H3) (H4 & H5 & H6).
  repeat split; [etrans; eassumption | etrans; eassumption | lia].
Qed.

Lemma process_file_grows canRender acc file :
  returns (process_file E canRender acc file) (grown_from acc).
Proof.
  intros w acc' w' Hrun.
  pose proof (process_file_extends E canRender acc file w acc' w' Hrun)
    as (added & Hc & _).
  pose proof (process_file_accounting canRender acc file w acc' w' Hrun) as Hacc.
  split; [rewrite Hc; apply prefix_app_r; reflexivity|].
  destruct (is_pdf_file file).
  - destruct Hacc as (d & -> & _ & Hlen & ->).
    split; [apply prefix_app_r; reflexivity | lia].
  - destruct Hacc as [-> ->]. split; [reflexivity | lia].
Qed.

(** X10: the assembler works through the files in upload order and only
    ever appends: assembling a request is assembling its first files and
    going on from there, so the blocks, the diagnostics and the count of
    the first files stand unchanged at the head of the result. *)
Theorem assembly_of_earlier_files_is_kept (files1 files2 : list UploadedFile)
    (message : option jsstring) (asm : Assembly) (w w' : World) :
  createContentWithFiles E (files1 ++ files2) message w = (Ret asm, w') ->
  exists asm1 w1,
    createContentWithFiles E files1 message w = (Ret asm1, w1)
    /\ grown_from asm1 asm.
Proof.
  unfold createContentWithFiles, bind at 1 2.
  destruct (isPdftoppmAvailable E w) as [[canRender|e|] w0]; try discriminate.
  rewrite for_of_app. unfold bind at 1.
  destruct (for_of files1 _ _ w0) as [[asm1|e|] w1]; try discriminate.
  intros Hrest. exists asm1, w1. split; [reflexivity|].
  revert Hrest. apply returns_for_of; [|apply grown_refl].
  intros acc f Hacc. eapply returns_weaken; [apply process_file_grows|].
  intros acc' Hacc'. eapply grown_trans; eassumption.
Qed.

(** X11: the assembler never calls the summarisation service, whether it
    returns or fails. *)
Theorem assembler_sends_no_request (files : list UploadedFile)
    (message : option jsstring) (w : World) :
  api_log (createContentWithFiles E files message w).2 = api_log w.
Proof. apply silent_createContentWithFiles. Qed.

End Accounting.

Lemma diagnostics_account_for_every_pdf_witness :
  exists asm w',
    createContentWithFiles studio_env [moodboard_png; brief_pdf; notes_txt]
      (Some GENERATE_MESSAGE) mixed_world = (Ret asm, w')
    /\ d_filename <$> a_pdfDiagnostics asm = [u "brief.pdf"]
    /\ Forall (fun d => 0 <= d_textLength d) (a_pdfDiagnostics asm)
    /\ a_totalExtractedPdfChars asm
       = sum_Z (d_textLength <$> a_pdfDiagnostics asm).
Proof.
  assert (exists asm w',
            createContentWithFiles studio_env
              [moodboard_png; brief_pdf; notes_txt] (Some GENERATE_MESSAGE)
              mixed_world = (Ret asm, w')) as (asm & w' & Hasm)
    by (eexists _, _; vm_compute; reflexivity).
  exists asm, w'. split; [exact Hasm|].
  destruct (diagnostics_account_for_every_pdf studio_env
              [moodboard_png; brief_pdf; notes_txt] (Some GENERATE_MESSAGE)
              asm mixed_world w' Hasm) as (Hnames & Hpos & Htotal).
  split; [rewrite Hnames; vm_compute; reflexivity | auto].
Defined.

Lemma assembly_of_earlier_files_is_kept_witness :
  exists asm w' asm1 w1,
    createContentWithFiles studio_env ([moodboard_png] ++ [brief_pdf; notes_txt])
      (Some GENERATE_MESSAGE) mixed_world = (Ret asm, w')
    /\ createContentWithFiles studio_env [moodboard_png]
         (Some GENERATE_MESSAGE) mixed_world = (Ret asm1, w1)
    /\ grown_from asm1 asm.
Proof.
  assert (exists asm w',
            createContentWithFiles studio_env
              ([moodboard_png] ++ [brief_pdf; notes_txt])
              (Some GENERATE_MESSAGE) mixed_world = (Ret asm, w'))
    as (asm & w' & Hasm) by (eexists _, _; vm_compute; reflexivity).
  destruct (assembly_of_earlier_files_is_kept studio_env [moodboard_png]
              [brief_pdf; notes_txt] (Some GENERATE_MESSAGE) asm mixed_world w'
              Hasm) as (asm1 & w1 & Hfirst & Hgrown).
  exists asm, w', asm1, w1. auto.
Defined.

(** ** Requests without a PDF *)

Section WithoutPdf.

Variable E : Env.

Lemma process_file_without_pdf_parse (module : PdfParseModule) canRender acc
    (file : UploadedFile) :
  is_pdf_file file = false ->
  process_file (with_pdf_parse module E) canRender acc file
  = process_file E canRender acc file.
Proof.
  unfold is_pdf_file, is_image_file, process_file.
  destruct (JsString.startsWith _ _); [reflexivity|]. simpl.
  case_bool_decide; [discriminate | reflexivity].
Qed.

Lemma for_of_ext {A S} (l : list A) (body1 body2 : S -> A -> M S) :
  Forall (fun x => forall acc, body1 acc x = body2 acc x) l ->
  forall acc w, for_of l body1 acc w = for_of l body2 acc w.
Proof.
  induction 1 as [|x l Hx _ IH]; intros acc w; [reflexivity|].
  simpl. unfold bind. rewrite Hx.
  destruct (body2 acc x w) as [[a|e|] w1]; [apply IH | reflexivity..].
Qed.

(** X12: a request without a PDF is answered without the [pdf-parse]
    module: whatever that module is, even one of an unsupported shape,
    the generate handler does the same and answers the same. *)
Theorem requests_without_pdf_do_not_need_pdf_parse
    (module : PdfParseModule) (files : list UploadedFile) (w : World) :
  Forall (fun f => is_pdf_file f = false) files ->
  generate_breakdown (with_pdf_parse module E) (Some files) w
  = generate_breakdown E (Some files) w.
Proof.
  intros Hfiles.
  assert (Hasm : forall w0,
            createContentWithFiles (with_pdf_parse module E) files
              (Some GENERATE_MESSAGE) w0
            = createContentWithFiles E files (Some GENERATE_MESSAGE) w0).
  { intros w0. unfold createContentWithFiles, bind.
    change (isPdftoppmAvailable (with_pdf_parse module E))
      with (isPdftoppmAvailable E).
    destruct (isPdftoppmAvailable E w0) as [[canRender|e|] w1];
      [|reflexivity..].
    apply for_of_ext. eapply Forall_impl; [exact Hfiles|].
    intros f Hf acc. apply process_file_without_pdf_parse. assumption. }
  assert (Htry : forall w0,
            generate_try (with_pdf_parse module E) files w0
            = generate_try E files w0).
  { intros w0. unfold generate_try.
    change (api_key_configured (with_pdf_parse module E))
      with (api_key_configured E).
    destruct (length files =? 0)%nat; [reflexivity|].
    destruct (api_key_configured E); [|reflexivity]. cbn [negb].
    unfold bind at 1 3. rewrite Hasm.
    destruct (createContentWithFiles E files (Some GENERATE_MESSAGE) w0)
      as [[asm|e|] w1]; reflexivity. }
  unfold generate_breakdown, finally, try_catch.
  change (default [] (Some files)) with files. rewrite Htry. reflexivity.
Qed.

End WithoutPdf.

Lemma requests_without_pdf_do_not_need_pdf_parse_witness :
  Forall (fun f => is_pdf_file f = false) [moodboard_png; notes_txt]
  /\ generate_breakdown (with_pdf_parse (UnknownShape []) studio_env)
       (Some [moodboard_png; notes_txt]) mixed_world
     = generate_breakdown studio_env (Some [moodboard_png; notes_txt])
         mixed_world.
Proof.
  assert (Forall (fun f => is_pdf_file f = false) [moodboard_png; notes_txt])
    as Hfiles by (repeat constructor).
  split; [exact Hfiles|].
  apply (requests_without_pdf_do_not_need_pdf_parse studio_env
           (UnknownShape []) [moodboard_png; notes_txt] mixed_world Hfiles).
Defined.

(** ** Rendering pages *)

Section Rendering.

Variable E : Env.



(** One turn of the page loop never fails: it adds one image or
    nothing. *)
Lemma render_page_turn file renderDir content pageNum (w : World) :
  exists c w',
    render_page E file renderDir content pageNum w = (Ret c, w')
    /\ (c = content
        \/ exists data, c = content ++ [ImageBlock (u "image/jpeg") data]).
Proof.
  pose proof (never_hangs_render_page E file renderDir content pageNum w) as Hnh.
  destruct (render_page E file renderDir content pageNum w) as [[c|e|] w']
    eqn:Hrun; simpl in Hnh; [| |congruence].
  - exists c, w'. split; [reflexivity|]. revert Hrun.
    generalize w c w'. change (returns
      (render_page E file renderDir content pageNum)
      (fun c => c = content
                \/ exists data, c = content ++ [ImageBlock (u "image/jpeg") data])).
    unfold render_page. apply returns_try_catch.
    + eapply returns_bind with (P := fun _ => True); [done|]. intros p _.
      eapply returns_bind with (P := fun _ => True); [done|]. intros data _.
      eapply returns_bind with (P := fun _ => True); [done|]. intros _ _.
      apply returns_ret. eauto.
    + intros e. apply returns_ret. auto.
  - exfalso. revert Hrun. unfold render_page, try_catch, ret.
    repeat case_match; intros; simplify_eq.
Qed.

Lemma render_loop (file : UploadedFile) (renderDir : jsstring)
    (pages : list Z) :
  forall content w,
    exists images w',
      for_of pages (render_page E file renderDir) content w
      = (Ret (content ++ images), w')
      /\ Forall (fun b => is_image b = true) images
      /\ (length images <= length pages)%nat.
Proof.
  induction pages as [|p pages IH]; intros content w.
  - exists [], w. rewrite app_nil_r. repeat split; [constructor | simpl; lia].
  - destruct (render_page_turn file renderDir content p w)
      as (c & w1 & Hturn & Hc).
    cbn [for_of]. unfold bind. rewrite Hturn.
    destruct (IH c w1) as (images & w' & -> & Himg & Hlen).
    destruct Hc as [->|[data ->]].
    + exists images, w'. repeat split; [assumption | simpl; lia].
    + exists (ImageBlock (u "image/jpeg") data :: images), w'.
      rewrite <- app_assoc. repeat split; [constructor; auto | simpl; lia].
Qed.

Lemma cappedPages_length (pages : Z) (sampled : list Z) :
  (length (cappedPages pages sampled) <= Z.to_nat VISUAL_RENDER_MAX_PAGES)%nat.
Proof.
  unfold cappedPages. rewrite slice_from_start by done.
  rewrite length_take. lia.
Qed.

(** X14: the visual fallback cannot fail a request.  With [pdftoppm] at
    hand it returns the content followed by its header, at most
    [VISUAL_RENDER_MAX_PAGES] images (a page that fails to render is
    skipped) and its footer; without it, the content followed by the
    notice. *)
Theorem visual_fallback_never_fails (canRender : bool) (file : UploadedFile)
    (pages : Z) (content : list ContentBlock) (w : World) :
  exists c w',
    visual_fallback E canRender file pages content w = (Ret c, w')
    /\ if canRender then
         exists images,
           c = content ++ [visual_header (display_name file)] ++ images
                ++ [visual_footer (display_name file)]
           /\ Forall (fun b => is_image b = true) images
           /\ (length images <= Z.to_nat VISUAL_RENDER_MAX_PAGES)%nat
       else c = content ++ [image_heavy_notice (display_name file)].
Proof.
  unfold visual_fallback. destruct canRender; cbn [negb]; [|unfold ret; eauto].
  destruct (samplePages_total pages) as [sampled Hs].
  unfold bind at 1, terminating. rewrite Hs.
  destruct (render_loop file (Path.join (dirname E) (u "uploads"))
              (cappedPages pages sampled)
              (content ++ [visual_header (display_name file)]) w)
    as (images & w' & Hloop & Himg & Hlen).
  unfold bind. cbv zeta. rewrite Hloop. eexists _, w'. split; [reflexivity|].
  exists images. rewrite <- !app_assoc. split; [reflexivity|].
  split; [assumption|]. pose proof (cappedPages_length pages sampled). lia.
Qed.

End Rendering.


(** ** When a notes request is rejected *)

Section NotesFailure.

Variable E : Env.

(** The loop over the text blocks when request [k] is the first to be
    rejected: it throws, having sent the requests up to that one. *)
Lemma notes_loop_rejected (n : nat) (items : list (nat * ContentBlock)) :
  forall (k : nat) (r : ApiRequest) (notes : list jsstring) (w : World),
    let requests := request_of E n <$> filter kept items in
    requests !! k = Some r ->
    (forall (j : nat) r', (j < k)%nat -> requests !! j = Some r' ->
                          is_Some (anthropic E (clock w + j) r')) ->
    anthropic E (clock w + k) r = None ->
    exists w',
      for_of items (notes_step E n) notes w = (Throw ApiError, w')
      /\ api_log w' = api_log w ++ take (S k) requests.
Proof.
  induction items as [|[i block] items IH]; intros k r notes w requests Hk Hok Hno.
  - discriminate.
  - cbn [for_of]. unfold bind at 1, notes_step at 1.
    destruct (isGenericInstruction block) eqn:Hgen.
    + unfold requests in *.
      rewrite filter_cons_False in *
        by (unfold kept, summarised; simpl; congruence).
      apply (IH k r); assumption.
    + unfold requests in *.
      rewrite filter_cons_True in * by exact Hgen.
      rewrite fmap_cons in *.
      change (request_of E n (i, block)) with (notes_request E i n block) in *.
      cbv [bind messages_create tick ret]. cbn [clock disk api_log].
      destruct k as [|k].
      * injection Hk as <-. rewrite Nat.add_0_r in Hno. rewrite Hno.
        eexists. split; [reflexivity|]. simpl. rewrite take_0. reflexivity.
      * destruct (Hok 0%nat (notes_request E i n block) ltac:(lia) eq_refl)
          as [answer Hanswer].
        rewrite Nat.add_0_r in Hanswer. rewrite Hanswer.
        set (w1 := {| disk := disk w;
                      api_log := api_log w ++ [notes_request E i n block];
                      clock := S (clock w) |}).
        destruct (IH k r (notes ++ [first_text answer]) w1) as (w' & -> & Hlog).
        -- exact Hk.
        -- intros j r' Hj Hr'. simpl.
           replace (S (clock w + j)) with (clock w + S j)%nat by lia.
           apply Hok; [lia | exact Hr'].
        -- simpl. replace (S (clock w + k)) with (clock w + S k)%nat by lia.
           exact Hno.
        -- exists w'. split; [reflexivity|]. rewrite Hlog. simpl.
           rewrite <- app_assoc. reflexivity.
Qed.

(** X15: if the summarisation service rejects one of the notes requests,
    the multi-pass summariser fails there and then: the requests for the
    blocks before it have been sent, none for a later block is, and the
    final synthesis request is never made. *)
Theorem rejected_notes_request_fails_the_pass (content : list ContentBlock)
    (k : nat) (r : ApiRequest) (w : World) :
  let textBlocks := filter is_text content in
  let requests :=
    request_of E (length textBlocks) <$> filter kept (imap pair textBlocks) in
  requests !! k = Some r ->
  (forall (j : nat) r', (j < k)%nat -> requests !! j = Some r' ->
                        is_Some (anthropic E (clock w + j) r')) ->
  anthropic E (clock w + k) r = None ->
  exists w',
    runMultiPassBreakdown E content w = (Throw ApiError, w')
    /\ api_log w' = api_log w ++ take (S k) requests.
Proof.
  intros textBlocks requests Hk Hok Hno.
  destruct (notes_loop_rejected (length textBlocks) (imap pair textBlocks)
              k r [] w Hk Hok Hno) as (w' & Hloop & Hlog).
  exists w'. split; [|exact Hlog].
  unfold runMultiPassBreakdown, bind at 1. fold textBlocks.
  rewrite Hloop. reflexivity.
Qed.

End NotesFailure.

Lemma rejected_notes_request_fails_the_pass_witness :
  exists w',
    runMultiPassBreakdown flaky_env three_chunks empty_world
    = (Throw ApiError, w')
    /\ length (api_log w') = 2%nat.
Proof.
  destruct (rejected_notes_request_fails_the_pass flaky_env three_chunks 1
              (notes_request flaky_env 2 4 (TextBlock (u "chunk two")))
              empty_world) as (w' & Hrun & Hlog).
  - reflexivity.
  - intros j r' Hj _. replace j with 0%nat by lia. eexists. reflexivity.
  - reflexivity.
  - exists w'. split; [exact Hrun|]. rewrite Hlog. reflexivity.
Defined.

(** ** The answers of the two handlers *)

Section Answers.

Variable E : Env.


(** X17: whatever is uploaded and whatever goes wrong, the generate
    handler answers with one of four things: the 400 for a request without
    files, the 500 that names the missing credential, a 500 with the fixed
    text [Failed to generate breakdown] (no detail of the error leaves the
    server), or a 200 whose history has exactly two turns: the user turn
    opening with the task prompt and the assistant turn holding the
    breakdown that is returned. *)
Theorem generate_answers_are_of_four_kinds
    (req_files : option (list UploadedFile)) (w : World) :
  exists resp w',
    generate_breakdown E req_files w = (Ret resp, w')
    /\ (resp = error_response 400 (u "No files uploaded")
        \/ resp = error_response 500 MISSING_KEY_MESSAGE
        \/ resp = error_response 500 (u "Failed to generate breakdown")
        \/ exists breakdown rest,
             resp = {| status := 200;
                       body := BreakdownBody breakdown
                                 [user_turn (TextBlock GENERATE_MESSAGE :: rest);
                                  assistant_turn breakdown] |}).
Proof.
  destruct (generate_breakdown_run E req_files w)
    as (resp & w1 & w' & Htry & Hrun & _).
  exists resp, w'. split; [exact Hrun|].
  revert Htry. generalize (default [] req_files). intros files.
  unfold try_catch, generate_try.
  destruct (length files =? 0)%nat; [intros [= <- _]; auto|].
  destruct (api_key_configured E); cbn [negb]; [|intros [= <- _]; auto].
  unfold bind at 1.
  destruct (createContentWithFiles E files (Some GENERATE_MESSAGE) w)
    as [[asm|e|] w0] eqn:Hasm; [|intros [= <- _]; auto | discriminate].
  destruct (generate_content_shape E files w asm w0 Hasm) as (rest & Hc & _).
  unfold bind at 1.
  destruct (synthesize E asm w0) as [[breakdown|e|] w2];
    [|intros [= <- _]; auto | discriminate].
  intros [= <- _]. right. right. right. exists breakdown, rest.
  rewrite Hc. reflexivity.
Qed.


End Answers.


(** ** The Word download *)

Section Download.

Import Docx.

Lemma split_from_nonempty sep k s : split_from sep k s <> [].
Proof.
  revert k. induction s as [|c rest IH]; intros k; cbn [split_from];
    [discriminate|].
  destruct k; [|apply IH].
  destruct (JsString.startsWith (c :: rest) sep); [discriminate|].
  destruct (split_from sep 0 rest); discriminate.
Qed.

(** Splitting into lines, one unit at a time. *)
Lemma lines_cons c rest :
  split (c :: rest) nl
  = if (c =? 10)%N then [] :: split rest nl
    else match split rest nl with
         | h :: t => (c :: h) :: t
         | [] => [[c]]
         end.
Proof.
  unfold split. change nl with [10%N].
  cbn [split_from JsString.startsWith length Nat.sub].
  rewrite (N.eqb_sym 10 c).
  destruct rest; cbn [JsString.startsWith]; rewrite andb_true_r; reflexivity.
Qed.

(** Splitting into sections, one unit at a time. *)
Lemma sections_cons c rest :
  split (c :: rest) (nl ++ nl)
  = if (c =? 10)%N && JsString.starts_with_unit 10 rest
    then [] :: split (tail rest) (nl ++ nl)
    else match split rest (nl ++ nl) with
         | h :: t => (c :: h) :: t
         | [] => [[c]]
         end.
Proof.
  unfold split. change (nl ++ nl) with [10%N; 10%N].
  cbn [split_from JsString.startsWith length Nat.sub].
  rewrite (N.eqb_sym 10 c).
  destruct rest as [|d rest];
    cbn [JsString.starts_with_unit JsString.startsWith tail split_from].
  - rewrite !andb_false_r. reflexivity.
  - rewrite (N.eqb_sym 10 d).
    destruct rest; cbn [JsString.startsWith]; rewrite andb_true_r;
      destruct ((c =? 10)%N && (d =? 10)%N); reflexivity.
Qed.

Lemma same_lines_filter a b :
  same_lines a b ->
  filter (fun l => l <> []) a = filter (fun l => l <> []) b.
Proof.
  intros (h & t & t' & -> & -> & Ht).
  destruct (decide (h = [])) as [Hh|Hh].
  - rewrite !filter_cons_False by (intros Hn; apply Hn; exact Hh). exact Ht.
  - rewrite !filter_cons_True by exact Hh. f_equal. exact Ht.
Qed.

(** The lines of the sections are the lines of the whole text, but for
    the empty line between two sections. *)
Lemma lines_of_sections_upto (n : nat) :
  forall s, (length s <= n)%nat ->
    same_lines (split s nl)
      (concat ((fun section => split section nl) <$> split s (nl ++ nl))).
Proof.
  induction n as [|n IH]; intros s Hlen.
  - destruct s; [|simpl in Hlen; lia].
    exists [], [], []. repeat split.
  - destruct s as [|c rest]; [exists [], [], []; repeat split|].
    simpl in Hlen.
    pose proof (IH rest ltac:(lia)) as Hrest.
    rewrite lines_cons, sections_cons.
    destruct (N.eqb_spec c 10) as [->|Hc]; cbn [andb].
    + destruct rest as [|d rest']; cbn [JsString.starts_with_unit tail].
      * exists [], [[]], [[]]. repeat split.
      * destruct (N.eqb_spec d 10) as [->|Hd].
        -- pose proof (IH rest' ltac:(simpl in Hlen; lia)) as Hrest'.
           rewrite (lines_cons 10 rest'). change (10 =? 10)%N with true.
           cbv iota. rewrite fmap_cons, concat_cons.
           change (split [] nl) with [[] : jsstring]. cbn [app].
           eexists [], _, _. split; [reflexivity|]. split; [reflexivity|].
           rewrite filter_cons_False by (intros Hn; apply Hn; reflexivity).
           apply same_lines_filter. exact Hrest'.
        -- destruct Hrest as (h & t & t' & Hl & Hs & Ht).
           destruct (split (d :: rest') (nl ++ nl)) as [|sh st] eqn:Hsec;
             [discriminate|].
           rewrite fmap_cons, concat_cons in Hs |- *.
           rewrite (lines_cons 10 sh). change (10 =? 10)%N with true.
           cbv iota. cbn [app].
           eexists [], _, _. split; [reflexivity|]. split; [reflexivity|].
           rewrite Hl, Hs. apply same_lines_filter.
           exists h, t, t'. repeat split. exact Ht.
    + destruct Hrest as (h & t & t' & Hl & Hs & Ht).
      destruct (split rest (nl ++ nl)) as [|sh st] eqn:Hsec;
        [discriminate|].
      rewrite fmap_cons, concat_cons in Hs |- *.
      rewrite (lines_cons c sh).
      destruct (N.eqb_spec c 10) as [|_]; [contradiction|].
      rewrite Hl.
      destruct (split sh nl) as [|lh lt] eqn:Hsh;
        [exfalso; exact (split_from_nonempty _ _ _ Hsh)|].
      cbn [app] in Hs |- *. injection Hs as -> Hs.
      exists (c :: h), t, (lt ++ concat ((fun section => split section nl) <$> st)).
      split; [reflexivity|]. split; [reflexivity|]. rewrite Ht, Hs. reflexivity.
Qed.

Lemma nonblank_nonempty (l : jsstring) : nonblank l -> l <> [].
Proof. intros Hl ->. exact Hl. Qed.

Lemma filter_nonblank_nonempty (ls : list jsstring) :
  filter (fun l => nonblank l) (filter (fun l => l <> []) ls)
  = filter (fun l => nonblank l) ls.
Proof.
  induction ls as [|l ls IH]; [reflexivity|].
  destruct (decide (l = [])) as [->|Hl].
  - rewrite (filter_cons_False (fun l => l <> [])) by (intros Hn; apply Hn; reflexivity).
    rewrite (filter_cons_False (fun l => nonblank l)) by (intros H; exact H).
    exact IH.
  - rewrite (filter_cons_True (fun l => l <> [])) by exact Hl.
    destruct (nonblank l) eqn:Hb.
    + rewrite !(filter_cons_True (fun l => nonblank l)) by (rewrite Hb; exact I).
      f_equal. exact IH.
    + rewrite !(filter_cons_False (fun l => nonblank l)) by (rewrite Hb; exact id).
      exact IH.
Qed.

Lemma nonblank_lines_of_sections (s : jsstring) :
  filter (fun l => nonblank l)
    (concat ((fun section => split section nl) <$> split s (nl ++ nl)))
  = filter (fun l => nonblank l) (split s nl).
Proof.
  rewrite <- filter_nonblank_nonempty.
  rewrite <- (filter_nonblank_nonempty (split s nl)).
  f_equal. symmetry. apply same_lines_filter.
  apply (lines_of_sections_upto (length s)). lia.
Qed.

(** Every unit of a piece is a unit of the text that was split. *)
Lemma split_from_units sep s : forall k piece c,
  piece ∈ split_from sep k s -> c ∈ piece -> c ∈ s.
Proof.
  induction s as [|x rest IH]; intros k piece c; cbn [split_from].
  - intros ->%list_elem_of_singleton Hc. exact Hc.
  - destruct k as [|k].
    + destruct (JsString.startsWith (x :: rest) sep).
      * intros [->|Hp]%elem_of_cons Hc; [inversion Hc|].
        right. eapply IH; eassumption.
      * destruct (split_from sep 0 rest) as [|h t] eqn:Hsplit;
          [exfalso; exact (split_from_nonempty _ _ _ Hsplit)|].
        intros [->|Hp]%elem_of_cons Hc.
        -- apply elem_of_cons in Hc as [->|Hc]; [left|right].
           eapply (IH 0%nat h); [rewrite Hsplit; left | exact Hc].
        -- right. eapply (IH 0%nat piece); [rewrite Hsplit; right; exact Hp | exact Hc].
    + intros Hp Hc. right. eapply IH; eassumption.
Qed.

Lemma nonblank_false (s : jsstring) :
  nonblank s = false <-> Forall (fun c => JsString.is_space c = true) s.
Proof.
  unfold nonblank. rewrite <- trim_nil.
  destruct (JsString.trim s); simpl; split; congruence.
Qed.

Lemma blank_pieces sep s piece :
  nonblank s = false -> piece ∈ split s sep -> nonblank piece = false.
Proof.
  rewrite !nonblank_false, !Forall_forall. intros Hs Hp c Hc.
  apply Hs. eapply split_from_units; eassumption.
Qed.

Lemma filter_none {A} (P : A -> Prop) `{!forall x, Decision (P x)} (l : list A) :
  (forall x, x ∈ l -> ~ P x) -> filter P l = [].
Proof.
  induction l as [|x l IH]; intros Hno; [reflexivity|].
  rewrite filter_cons_False by (apply Hno; left).
  apply IH. intros y Hy. apply Hno. right. exact Hy.
Qed.

Lemma has_run_line_paragraph line : has_run (line_paragraph line) = true.
Proof. unfold line_paragraph. destruct (isHeader line); reflexivity. Qed.

Lemma line_paragraphs_concat (ls : list jsstring) :
  concat (line_paragraphs <$> ls)
  = line_paragraph <$> filter (fun l => nonblank l) ls.
Proof.
  induction ls as [|l ls IH]; [reflexivity|].
  rewrite fmap_cons, concat_cons, IH. unfold line_paragraphs.
  destruct (nonblank l) eqn:Hb.
  - rewrite filter_cons_True by (rewrite Hb; exact I). reflexivity.
  - rewrite filter_cons_False by (rewrite Hb; exact id). reflexivity.
Qed.

Lemma filter_has_run_lines (ls : list jsstring) :
  filter (fun p => has_run p) (line_paragraph <$> ls) = line_paragraph <$> ls.
Proof.
  induction ls as [|l ls IH]; [reflexivity|].
  rewrite fmap_cons, filter_cons_True by (rewrite has_run_line_paragraph; exact I).
  f_equal. exact IH.
Qed.

Lemma section_paragraphs_runs (section : jsstring) :
  filter (fun p => has_run p) (section_paragraphs section)
  = line_paragraph <$> filter (fun l => nonblank l) (split section nl).
Proof.
  unfold section_paragraphs. destruct (nonblank section) eqn:Hb.
  - rewrite line_paragraphs_concat, filter_app, filter_has_run_lines.
    rewrite filter_cons_False by exact id. rewrite filter_nil, app_nil_r.
    reflexivity.
  - rewrite filter_nil, filter_none; [reflexivity|].
    intros l Hl Hnb. rewrite (blank_pieces nl section l Hb Hl) in Hnb.
    exact Hnb.
Qed.

Lemma filter_concat {A} (P : A -> Prop) `{!forall x, Decision (P x)}
    (ls : list (list A)) :
  filter P (concat ls) = concat (filter P <$> ls).
Proof.
  induction ls as [|l ls IH]; [reflexivity|].
  rewrite fmap_cons, !concat_cons, filter_app, IH. reflexivity.
Qed.

(** The paragraphs that carry text, read off the lines of the whole
    breakdown. *)
Lemma docx_lines_of_paragraphs (breakdown : jsstring) :
  filter (fun p => has_run p) (paragraphs breakdown)
  = line_paragraph <$> filter (fun l => nonblank l) (split breakdown nl).
Proof.
  unfold paragraphs. rewrite filter_concat, <- list_fmap_compose.
  rewrite (list_fmap_ext _
             (fun section =>
                line_paragraph <$>
                  filter (fun l => nonblank l) (split section nl)))
    by (intros; apply section_paragraphs_runs).
  rewrite <- nonblank_lines_of_sections.
  generalize (split breakdown (nl ++ nl)). intros sections.
  induction sections as [|sec sections IH]; [reflexivity|].
  rewrite !fmap_cons, !concat_cons, filter_app, fmap_app, IH. reflexivity.
Qed.

(** X19: no line of the breakdown is lost in the Word document, and none
    is added: the paragraphs that carry text are, in order, one for each
    line of the breakdown that is not blank, the breakdown being cut at
    every single line feed; a header line is set trimmed, any other line
    as written. *)
Theorem docx_has_one_paragraph_per_line (breakdown : jsstring) :
  filter (fun p => has_run p) (paragraphs breakdown)
  = line_paragraph <$> filter (fun l => nonblank l) (split breakdown nl).
Proof. apply docx_lines_of_paragraphs. Qed.

(** A unit that is not a line feed stands in one of the lines. *)
Lemma unit_in_a_line (s : jsstring) (c : N) :
  c ∈ s -> c <> 10%N -> exists l, l ∈ split s nl /\ c ∈ l.
Proof.
  intros Hc Hnl. induction s as [|x rest IH]; [inversion Hc|].
  rewrite lines_cons.
  destruct (split rest nl) as [|h t] eqn:Hsplit;
    [exfalso; exact (split_from_nonempty _ _ _ Hsplit)|].
  apply elem_of_cons in Hc as [->|Hc].
  - destruct (N.eqb_spec x 10) as [|_]; [contradiction|].
    exists (x :: h). split; left.
  - destruct (IH Hc) as (l & Hl & Hcl).
    destruct (x =? 10)%N; [exists l; split; [right|]; assumption|].
    apply elem_of_cons in Hl as [->|Hl].
    + exists (x :: h). split; [left | right; exact Hcl].
    + exists l. split; [right|]; assumption.
Qed.

Lemma nonblank_unit (s : jsstring) :
  nonblank s = true -> exists c, c ∈ s /\ JsString.is_space c = false.
Proof.
  intros Hs. destruct (decide (Forall (fun c => JsString.is_space c = true) s))
    as [Hall|Hex].
  - apply nonblank_false in Hall. congruence.
  - apply not_Forall_Exists in Hex; [|intros c; apply _].
    apply Exists_exists in Hex as (c & Hc & Hsp).
    exists c. split; [exact Hc|]. unfold compose in Hsp.
    destruct (JsString.is_space c); [exfalso; apply Hsp|]; reflexivity.
Qed.

Lemma nonblank_has_lines (s : jsstring) :
  nonblank s = true -> filter (fun l => nonblank l) (split s nl) <> [].
Proof.
  intros (c & Hc & Hsp)%nonblank_unit.
  destruct (unit_in_a_line s c Hc) as (l & Hl & Hcl).
  { intros ->. discriminate. }
  intros Hnil. assert (l ∈ filter (fun l => nonblank l) (split s nl)) as Hin.
  { apply list_elem_of_filter. split; [|exact Hl].
    destruct (nonblank l) eqn:Hb; [exact I|].
    apply nonblank_false in Hb. rewrite Forall_forall in Hb.
    rewrite (Hb c Hcl) in Hsp. discriminate. }
  rewrite Hnil in Hin. inversion Hin.
Qed.

(** X20: the Word document holds nothing but its title exactly when the
    breakdown is blank, that is, made of white space only. *)
Theorem docx_is_title_only_iff_blank (breakdown : jsstring) :
  document_children (document breakdown) = [title_paragraph]
  <-> nonblank breakdown = false.
Proof.
  cbn [document document_children]. split.
  - intros [= Hnil]. destruct (nonblank breakdown) eqn:Hb; [|reflexivity].
    exfalso. apply (nonblank_has_lines breakdown Hb).
    pose proof (docx_lines_of_paragraphs breakdown) as Hlines.
    rewrite Hnil, filter_nil in Hlines. symmetry in Hlines.
    apply fmap_nil_inv in Hlines. exact Hlines.
  - intros Hb. f_equal. unfold paragraphs.
    assert (Forall (fun section => section_paragraphs section = [])
              (split breakdown (nl ++ nl))) as Hall.
    { apply Forall_forall. intros section Hsec. unfold section_paragraphs.
      rewrite (blank_pieces _ _ _ Hb Hsec). reflexivity. }
    induction Hall as [|section sections Hsec _ IH]; [reflexivity|].
    rewrite fmap_cons, concat_cons, Hsec, IH. reflexivity.
Qed.

Lemma section_paragraphs_block (section : jsstring) :
  section_paragraphs section = []
  \/ exists runs,
       section_paragraphs section = runs ++ [empty_paragraph]
       /\ runs <> [] /\ Forall (fun p => has_run p) runs.
Proof.
  unfold section_paragraphs. destruct (nonblank section) eqn:Hb; [right | left; reflexivity].
  rewrite line_paragraphs_concat.
  eexists. split; [reflexivity|]. split.
  - intros Hnil%fmap_nil_inv. exact (nonblank_has_lines section Hb Hnil).
  - apply Forall_fmap, Forall_forall. intros l _. simpl.
    rewrite has_run_line_paragraph. exact I.
Qed.

(** A block ends in its one empty paragraph. *)
Lemma empty_paragraph_of_block (runs pre post : list Paragraph) :
  Forall (fun p => has_run p) runs ->
  runs ++ [empty_paragraph] = pre ++ empty_paragraph :: post ->
  pre = runs /\ post = [].
Proof.
  revert pre. induction runs as [|r runs IH]; intros pre Hruns Heq.
  - destruct pre as [|p pre]; [injection Heq as <-; auto|].
    injection Heq as _ Heq. destruct pre; discriminate.
  - apply Forall_cons in Hruns as [Hr Hruns].
    destruct pre as [|p pre].
    + injection Heq as -> _. exfalso. exact Hr.
    + injection Heq as <- Heq. destruct (IH pre Hruns Heq) as [-> ->]. auto.
Qed.

(** X21: in the Word document an empty paragraph only ever closes a
    section: each one stands directly after a paragraph that carries
    text, so the paragraphs neither start with an empty one nor hold two
    in a row, and the last paragraph, if there is any, is empty. *)
Theorem docx_empty_paragraphs_close_sections (breakdown : jsstring) :
  (forall pre post,
     paragraphs breakdown = pre ++ empty_paragraph :: post ->
     exists pre' p, pre = pre' ++ [p] /\ has_run p = true)
  /\ (paragraphs breakdown <> [] ->
      last (paragraphs breakdown) = Some empty_paragraph).
Proof.
  unfold paragraphs. generalize (split breakdown (nl ++ nl)).
  intros sections. induction sections as [|section sections [IH1 IH2]].
  - split; [|intros Hne; contradiction].
    intros pre post Heq. destruct pre; discriminate.
  - rewrite fmap_cons, concat_cons.
    destruct (section_paragraphs_block section)
      as [->|(runs & -> & Hne & Hruns)]; [split; assumption|].
    split.
    + intros pre post Heq. rewrite <- app_assoc in Heq.
      apply app_eq_app in Heq as [l [[Hpre Heq]|[-> Heq]]].
      * destruct l as [|x l].
        -- rewrite app_nil_r in Hpre. subst pre.
           apply exists_last in Hne as (pre' & p & ->).
           exists pre', p. split; [reflexivity|].
           apply Forall_app in Hruns as [_ Hp]. rewrite Forall_singleton in Hp.
           apply Is_true_true. exact Hp.
        -- exfalso. cbn [app] in Heq. injection Heq as <- Heq. subst runs.
           apply Forall_app in Hruns as [_ Hx].
           apply Forall_cons in Hx as [Hx _]. exact Hx.
      * destruct l as [|x l].
        -- rewrite app_nil_r.
           apply exists_last in Hne as (pre' & p & ->).
           exists pre', p. split; [reflexivity|].
           apply Forall_app in Hruns as [_ Hp]. rewrite Forall_singleton in Hp.
           apply Is_true_true. exact Hp.
        -- cbn [app] in Heq. injection Heq as <- Heq.
           destruct (IH1 l post Heq) as (pre' & p & -> & Hp).
           exists (runs ++ empty_paragraph :: pre'), p.
           split; [|exact Hp]. rewrite <- !app_assoc. reflexivity.
    + intros _. rewrite <- app_assoc.
      destruct (concat (section_paragraphs <$> sections)) as [|q rest] eqn:Hrest.
      * rewrite app_nil_r. apply last_snoc.
      * rewrite app_assoc, last_app_cons. apply IH2. discriminate.
Qed.

(** The last unit survives trimming when it is not white space. *)
Lemma trim_start_last (s : jsstring) (c : N) :
  last s = Some c -> JsString.is_space c = false ->
  last (JsString.trim_start s) = Some c.
Proof.
  intros Hlast Hc. induction s as [|x s IH]; [discriminate|].
  cbn [JsString.trim_start]. destruct (JsString.is_space x) eqn:Hx;
    [|exact Hlast].
  destruct s as [|y s]; [injection Hlast as ->; congruence|].
  apply IH. exact Hlast.
Qed.

Lemma endsWith_colon (s : jsstring) :
  JsString.endsWith s (u ":") = true <-> last s = Some 58%N.
Proof.
  unfold JsString.endsWith. change (reverse (u ":")) with [58%N].
  rewrite <- head_reverse.
  destruct (reverse s) as [|x r]; cbn [JsString.startsWith head].
  - split; discriminate.
  - destruct r; cbn [JsString.startsWith]; rewrite andb_true_r, N.eqb_eq;
      (split; [intros <- | intros [= <-]]; reflexivity).
Qed.

Lemma trim_last (s : jsstring) (c : N) :
  last s = Some c -> JsString.is_space c = false ->
  last (JsString.trim s) = Some c.
Proof.
  intros Hlast Hc. unfold JsString.trim.
  pose proof (trim_start_last s c Hlast Hc) as Hts.
  rewrite <- head_reverse in Hts.
  destruct (reverse (JsString.trim_start s)) as [|x r] eqn:Hrev; [discriminate|].
  injection Hts as ->. cbn [JsString.trim_start]. rewrite Hc.
  rewrite <- head_reverse, reverse_involutive. reflexivity.
Qed.

(** X22: every line the earlier version of the handler set as a header
    is set as a header by the present one, which looks for the closing
    colon after trimming the line and not before. *)
Theorem legacy_headers_are_still_headers (line : jsstring) :
  isHeader_legacy line = true -> isHeader line = true.
Proof.
  unfold isHeader_legacy, isHeader.
  destruct (header_pattern (JsString.trim line)); [reflexivity|].
  cbn [orb]. rewrite !endsWith_colon. intros Hlast.
  apply trim_last; [exact Hlast | reflexivity].
Qed.

End Download.

Lemma legacy_headers_are_still_headers_witness :
  Docx.isHeader_legacy (u "Travel CONFIRMED:") = true
  /\ Docx.isHeader (u "Travel CONFIRMED:") = true.
Proof.
  split; [reflexivity|].
  apply (legacy_headers_are_still_headers (u "Travel CONFIRMED:")).
  reflexivity.
Defined.
